(** * Playback and visibility core of the recipe feed

  A shallow embedding of the client-side playback engine:
  - the visibility tracker of [FeedView] and [FavoritesView]
    (intersection estimator, scroll estimator, published index);
  - the card controller [FullScreenRecipeCard] (stop announcement,
    voiceover start/stop, loop resync, periodic sync check, mute, favorite);
  - the three hosts that mount cards ([FeedView], [FavoritesView],
    [RecipeScroller]).

  Media positions, pixel offsets and intersection ratios are JavaScript
  numbers in the source; they are modelled as exact rationals ([Q]), with
  [None] standing for [NaN] or [Infinity] where the source can meet them.
  Integer indices are [Z] (the source uses [-1] as a local sentinel). *)

From Stdlib Require Import ZArith QArith Qabs Qround List String Bool Lia Lqa.
Import ListNotations.
Open Scope Z_scope.

(** ** JavaScript number helpers *)

Module JsNum.

(** [a < b] on numbers. *)
Definition Qltb (a b : Q) : bool :=
  match Qcompare a b with
  | Lt => true
  | _ => false
  end.

(** [x < y] where [y] may be [Infinity] ([None]). *)
Definition ltInf (x : Q) (y : option Q) : bool :=
  match y with
  | None => true
  | Some y' => Qltb x y'
  end.

(** Truncation towards zero. *)
Definition Qtrunc (x : Q) : Z := Z.quot (Qnum x) (Zpos (Qden x)).

(** The [%] operator on numbers: the result has the sign of the dividend;
    [NaN] ([None]) when the divisor is [NaN] or zero. *)
Definition jsmod (x : Q) (d : option Q) : option Q :=
  match d with
  | None => None
  | Some d' =>
      if Qeq_bool d' 0 then None
      else Some (x - d' * inject_Z (Qtrunc (x / d')))%Q
  end.

(** [Math.abs(a - b) > bound], false when [b] is [NaN]. *)
Definition absDiffGt (a : Q) (b : option Q) (bound : Q) : bool :=
  match b with
  | None => false
  | Some b' => Qltb bound (Qabs (a - b'))
  end.

End JsNum.

(** ** Visibility tracker ([FeedView] / [FavoritesView]) *)

Module Tracker.
Import JsNum.

(** What [getBoundingClientRect()] reports, as far as the code reads it. *)
Record DOMRect := mkRect { top : Q; height : Q }.

(** The scroll container at the time of a sample. *)
Record Scroller := mkScroller {
  clientHeight : Q;
  scrollTop : Q;
  scrollerRect : DOMRect
}.

(** One [IntersectionObserverEntry]: the target's [data-*-index]
    attribute ([None] when absent) and its [intersectionRatio]. *)
Record Entry := mkEntry {
  dataIndex : option Z;
  intersectionRatio : Q
}.

(** [parseInt(entry.target.getAttribute('data-...-index') || '-1')] *)
Definition entryIndex (e : Entry) : Z :=
  match dataIndex e with
  | Some i => i
  | None => -1
  end.

(** *** Intersection estimator *)

(** Body of [entries.forEach] over the pair [(maxRatio, mostVisibleIndex)]. *)
Definition visitEntry (st : Q * Z) (e : Entry) : Q * Z :=
  let index := entryIndex e in
  if (0 <=? index) && Qltb (fst st) (intersectionRatio e)
  then (intersectionRatio e, index)
  else st.

Fixpoint forEachEntry (entries : list Entry) (st : Q * Z) : Q * Z :=
  match entries with
  | [] => st
  | e :: rest => forEachEntry rest (visitEntry st e)
  end.

(** [let maxRatio = 0; let mostVisibleIndex = -1; entries.forEach(...)] *)
Definition mostVisible (entries : list Entry) : Q * Z :=
  forEachEntry entries (0%Q, -1).

Definition mostVisibleIndex (entries : list Entry) : Z :=
  snd (mostVisible entries).

(** *** Scroll estimator *)

Definition distanceFromCenter (s : Scroller) (rect : DOMRect) : Q :=
  let viewportCenter := (scrollTop s + clientHeight s / 2)%Q in
  let cardTop := (top rect - top (scrollerRect s) + scrollTop s)%Q in
  let cardCenter := (cardTop + height rect / 2)%Q in
  Qabs (cardCenter - viewportCenter).

(** Body of [refs.forEach((ref, index) => ...)] over the pair
    [(closestIndex, closestDistance)]; [None] is [Infinity]. *)
Definition visitRef (s : Scroller) (st : Z * option Q)
    (index : nat) (ref : option DOMRect) : Z * option Q :=
  match ref with
  | None => st
  | Some rect =>
      let d := distanceFromCenter s rect in
      if ltInf d (snd st) then (Z.of_nat index, Some d) else st
  end.

Fixpoint forEachRef (s : Scroller) (index : nat)
    (refs : list (option DOMRect)) (st : Z * option Q) : Z * option Q :=
  match refs with
  | [] => st
  | r :: rest => forEachRef s (S index) rest (visitRef s st index r)
  end.

(** [let closestIndex = -1; let closestDistance = Infinity; refs.forEach(...)] *)
Definition closest (s : Scroller) (refs : list (option DOMRect)) : Z * option Q :=
  forEachRef s 0 refs (-1, None).

Definition closestIndex (s : Scroller) (refs : list (option DOMRect)) : Z :=
  fst (closest s refs).

(** *** Publishing *)

(** [if (proposed >= 0 && proposed !== visibleIndex) setVisibleIndex(proposed)]:
    [Some i] is a call of the state setter, [None] is no call. *)
Definition publish (proposed current : Z) : option Z :=
  if (0 <=? proposed) && negb (proposed =? current)
  then Some proposed
  else None.

Definition applyPublish (p : option Z) (current : Z) : Z :=
  match p with
  | Some i => i
  | None => current
  end.

(** *** The list view as a state machine *)

(** [favorites.length] / [feedItems.length] and the published index. *)
Record ListView := mkView {
  itemCount : nat;
  visibleIndex : Z
}.

(** [useState([])] and [useState<number>(0)]. *)
Definition initialView : ListView := mkView 0 0.

Inductive ViewEvent :=
| SetItems (n : nat)
    (** [setFavorites] / [setFeedItems] with a list of [n] records *)
| ObserverSetup (firstRef : bool)
    (** the observer effect runs; [firstRef] is [!!refs.current[0]] *)
| IntersectionBatch (entries : list Entry)
    (** the observer callback is invoked *)
| ScrollSample (scroller : option Scroller) (refs : list (option DOMRect))
    (** [handleScroll] runs (animation frame, or effect set-up) *)
| RemoveFavorite (updatedLength : nat)
    (** [handleRemoveFavorite]; the store then holds [updatedLength] records *).

Definition step (v : ListView) (ev : ViewEvent) : ListView :=
  match ev with
  | SetItems n => mkView n (visibleIndex v)
  | ObserverSetup firstRef =>
      if Nat.eqb (itemCount v) 0 then v
      else if firstRef then mkView (itemCount v) 0 else v
  | IntersectionBatch entries =>
      (* the observer only exists when the effect did not return early *)
      if Nat.eqb (itemCount v) 0 then v
      else mkView (itemCount v)
             (applyPublish (publish (mostVisibleIndex entries) (visibleIndex v))
                           (visibleIndex v))
  | ScrollSample scroller refs =>
      match scroller with
      | None => v
      | Some s =>
          if Nat.eqb (itemCount v) 0 then v
          else mkView (itemCount v)
                 (applyPublish (publish (closestIndex s refs) (visibleIndex v))
                               (visibleIndex v))
      end
  | RemoveFavorite updatedLength =>
      let currentLength := Z.of_nat (itemCount v) in
      if Nat.eqb updatedLength 0 then mkView updatedLength (visibleIndex v)
      else if currentLength - 1 <=? visibleIndex v
      then mkView updatedLength (Z.max 0 (Z.of_nat updatedLength - 1))
      else mkView updatedLength (visibleIndex v)
  end.

Definition run (evs : list ViewEvent) (v : ListView) : ListView :=
  fold_left step evs v.

(** [const isVisible = visibleIndex === index], one per rendered card. *)
Definition renderedVisibility (v : ListView) : list bool :=
  map (fun index => visibleIndex v =? Z.of_nat index) (seq 0 (itemCount v)).

End Tracker.

(** ** Media elements, as far as the card controller observes them *)

Module Media.

(** Events a media element queues for its listeners. *)
Inductive MediaEv := EvPlay | EvPause.

(** An [HTMLMediaElement]; [src] is the empty string while unset and
    [duration] is [None] while it is [NaN] (no metadata yet). *)
Record MediaElement := mkMedia {
  src : string;
  paused : bool;
  currentTime : Q;
  duration : option Q;
  readyState : nat;
  volume : Q;
  loop : bool
}.

(** A freshly created element. *)
Definition fresh (loopAttr : bool) : MediaElement :=
  mkMedia EmptyString true 0 None 0 1 loopAttr.

Definition withSrc (s : string) (m : MediaElement) : MediaElement :=
  mkMedia s (paused m) (currentTime m) (duration m) (readyState m) (volume m) (loop m).

Definition withPaused (b : bool) (m : MediaElement) : MediaElement :=
  mkMedia (src m) b (currentTime m) (duration m) (readyState m) (volume m) (loop m).

(** [m.currentTime = t] *)
Definition seek (t : Q) (m : MediaElement) : MediaElement :=
  mkMedia (src m) (paused m) t (duration m) (readyState m) (volume m) (loop m).

(** [m.volume = v] *)
Definition withVolume (v : Q) (m : MediaElement) : MediaElement :=
  mkMedia (src m) (paused m) (currentTime m) (duration m) (readyState m) v (loop m).

(** [m.loop = b] *)
Definition withLoop (b : bool) (m : MediaElement) : MediaElement :=
  mkMedia (src m) (paused m) (currentTime m) (duration m) (readyState m) (volume m) b.

(** What the platform does between handlers: buffering and playback
    progress change [readyState], [duration] and [currentTime]. *)
Definition progress (rs : nat) (d : option Q) (t : Q) (m : MediaElement) : MediaElement :=
  mkMedia (src m) (paused m) t d rs (volume m) (loop m).

(** [m.load()]: the element is reset and starts fetching. *)
Definition load (m : MediaElement) : MediaElement :=
  mkMedia (src m) true 0 None 0 (volume m) (loop m).

(** [m.pause()]: a playing element becomes paused and queues [pause]. *)
Definition pause (m : MediaElement) : MediaElement * list MediaEv :=
  if paused m then (m, []) else (withPaused true m, [EvPause]).

(** [m.play()]: when the platform allows playback the element leaves the
    paused state (queueing [play] if it was paused) and the promise
    resolves ([true]); when the platform blocks the request the element is
    untouched and the promise rejects ([false]). *)
Definition play (allowed : bool) (m : MediaElement) : MediaElement * list MediaEv * bool :=
  if allowed
  then (withPaused false m, if paused m then [EvPlay] else [], true)
  else (m, [], false).

End Media.

(** ** The card controller ([FullScreenRecipeCard]) *)

Module Card.
Import JsNum Media.

(** The part of [CulinaryPlan] the playback core reads: recipes by title,
    the legacy [videoUrls], and the objects [recipeVideos] and
    [recipeVoiceovers] keyed by recipe index (absent when [None]). *)
Record CulinaryPlan := mkPlan {
  ingredients : list string;
  recipes : list string;
  planVideoUrls : option (list string);
  recipeVideos : option (list (Z * list string));
  recipeVoiceovers : option (list (Z * string))
}.

(** The attributes a host writes on [<FullScreenRecipeCard ... />];
    [isVisible] and [recipeIndex] are optional. *)
Record CardAttrs := mkAttrs {
  attrTitle : string;
  attrVideoUrls : list string;
  attrPlan : option CulinaryPlan;
  attrIsVisible : option bool;
  attrRecipeIndex : option Z
}.

(** The props after destructuring with defaults. *)
Record Props := mkProps {
  recipeTitle : string;
  videoUrls : list string;
  culinaryPlan : option CulinaryPlan;
  isVisible : bool;
  recipeIndex : Z
}.

(** [{ ..., isVisible = false, recipeIndex = 0, ... }] *)
Definition destructure (a : CardAttrs) : Props :=
  mkProps (attrTitle a) (attrVideoUrls a) (attrPlan a)
    (match attrIsVisible a with Some b => b | None => false end)
    (match attrRecipeIndex a with Some i => i | None => 0 end).

Fixpoint lookupKey {V : Type} (k : Z) (o : list (Z * V)) : option V :=
  match o with
  | [] => None
  | (k', v) :: rest => if k' =? k then Some v else lookupKey k rest
  end.

(** [videoUrls.length > 0] *)
Definition hasVideo (p : Props) : bool :=
  match videoUrls p with
  | [] => false
  | _ :: _ => true
  end.

(** [culinaryPlan?.recipeVoiceovers?.[recipeIndex]] *)
Definition voiceoverUrl (p : Props) : option string :=
  match culinaryPlan p with
  | None => None
  | Some plan =>
      match recipeVoiceovers plan with
      | None => None
      | Some o => lookupKey (recipeIndex p) o
      end
  end.

(** Truthiness of an optional string. *)
Definition truthy (s : option string) : bool :=
  match s with
  | None => false
  | Some EmptyString => false
  | Some _ => true
  end.

(** [!!voiceoverUrl] *)
Definition hasVoiceover (p : Props) : bool := truthy (voiceoverUrl p).

(** The detail of the [stopAllRecipeAudio] window event. *)
Record StopEvent := mkStop {
  exceptIndex : Z;
  newVisibleIndex : Z
}.

Inductive LogLine :=
| LogStoppingOthers | LogAudioStopped | LogStartingAudio | LogNowPlaying
| LogAutoPlayBlocked | LogStoppingAudio | LogPlayFailed
| LogVoiceoverReady | LogPlayAfterLoadPrevented | LogRestartFailed
| LogSyncOnLoopFailed | LogRestartOnLoopFailed
| LogLoadingVideo | LogVideoPlayFailed.

(** What a handler does to the outside, in the order it does it. *)
Inductive Action :=
| Dispatch (ev : StopEvent)
| AudioSeek (t : Q)
| AudioPlay (resolved : bool)
| AudioPause
| AudioLoad
| VideoSeek (t : Q)
| VideoPlay (resolved : bool)
| VideoLoad
| Console (l : LogLine).

(** Closure state of the audio/video sync effect: [lastVideoTime] and
    [syncTimeout] (deadline in ms, and the video time captured when the
    timer was armed). *)
Record SyncClosure := mkSync {
  lastVideoTime : Q;
  syncTimeout : option (Z * Q)
}.

(** One mounted card: React state, refs, installed closures, the props of
    the last commit, the media events queued for its listeners, and the
    trace of actions. *)
Record Card := mkCard {
  props : Props;
  committed : bool;
  isVoiceoverPlaying : bool;
  isVoiceoverMuted : bool;
  committedMuted : bool;
  isFavorited : bool;
  showLoginPrompt : bool;
  videoRef : option MediaElement;
  audioRef : option MediaElement;
  prevVisibleRef : bool;
  audioOnCanPlay : option (bool * bool);
  onceLoadedData : nat;
  onceCanPlay : nat;
  sync : option SyncClosure;
  audioQueue : list MediaEv;
  trace : list Action
}.

(** *** Field updates *)

Definition setProps (p : Props) (c : Card) : Card :=
  mkCard p true (isVoiceoverPlaying c) (isVoiceoverMuted c) (isVoiceoverMuted c)
    (isFavorited c) (showLoginPrompt c) (videoRef c) (audioRef c) (prevVisibleRef c)
    (audioOnCanPlay c) (onceLoadedData c) (onceCanPlay c) (sync c) (audioQueue c) (trace c).

Definition setIsVoiceoverPlaying (b : bool) (c : Card) : Card :=
  mkCard (props c) (committed c) b (isVoiceoverMuted c) (committedMuted c)
    (isFavorited c) (showLoginPrompt c) (videoRef c) (audioRef c) (prevVisibleRef c)
    (audioOnCanPlay c) (onceLoadedData c) (onceCanPlay c) (sync c) (audioQueue c) (trace c).

Definition setIsVoiceoverMuted (b : bool) (c : Card) : Card :=
  mkCard (props c) (committed c) (isVoiceoverPlaying c) b (committedMuted c)
    (isFavorited c) (showLoginPrompt c) (videoRef c) (audioRef c) (prevVisibleRef c)
    (audioOnCanPlay c) (onceLoadedData c) (onceCanPlay c) (sync c) (audioQueue c) (trace c).

Definition setIsFavorited (b : bool) (c : Card) : Card :=
  mkCard (props c) (committed c) (isVoiceoverPlaying c) (isVoiceoverMuted c) (committedMuted c)
    b (showLoginPrompt c) (videoRef c) (audioRef c) (prevVisibleRef c)
    (audioOnCanPlay c) (onceLoadedData c) (onceCanPlay c) (sync c) (audioQueue c) (trace c).

Definition setShowLoginPrompt (b : bool) (c : Card) : Card :=
  mkCard (props c) (committed c) (isVoiceoverPlaying c) (isVoiceoverMuted c) (committedMuted c)
    (isFavorited c) b (videoRef c) (audioRef c) (prevVisibleRef c)
    (audioOnCanPlay c) (onceLoadedData c) (onceCanPlay c) (sync c) (audioQueue c) (trace c).

Definition setVideo (v : MediaElement) (c : Card) : Card :=
  mkCard (props c) (committed c) (isVoiceoverPlaying c) (isVoiceoverMuted c) (committedMuted c)
    (isFavorited c) (showLoginPrompt c) (Some v) (audioRef c) (prevVisibleRef c)
    (audioOnCanPlay c) (onceLoadedData c) (onceCanPlay c) (sync c) (audioQueue c) (trace c).

Definition setAudio (a : MediaElement) (c : Card) : Card :=
  mkCard (props c) (committed c) (isVoiceoverPlaying c) (isVoiceoverMuted c) (committedMuted c)
    (isFavorited c) (showLoginPrompt c) (videoRef c) (Some a) (prevVisibleRef c)
    (audioOnCanPlay c) (onceLoadedData c) (onceCanPlay c) (sync c) (audioQueue c) (trace c).

Definition setPrevVisible (b : bool) (c : Card) : Card :=
  mkCard (props c) (committed c) (isVoiceoverPlaying c) (isVoiceoverMuted c) (committedMuted c)
    (isFavorited c) (showLoginPrompt c) (videoRef c) (audioRef c) b
    (audioOnCanPlay c) (onceLoadedData c) (onceCanPlay c) (sync c) (audioQueue c) (trace c).

Definition setOnCanPlay (h : option (bool * bool)) (c : Card) : Card :=
  mkCard (props c) (committed c) (isVoiceoverPlaying c) (isVoiceoverMuted c) (committedMuted c)
    (isFavorited c) (showLoginPrompt c) (videoRef c) (audioRef c) (prevVisibleRef c)
    h (onceLoadedData c) (onceCanPlay c) (sync c) (audioQueue c) (trace c).

Definition setOnce (ld cp : nat) (c : Card) : Card :=
  mkCard (props c) (committed c) (isVoiceoverPlaying c) (isVoiceoverMuted c) (committedMuted c)
    (isFavorited c) (showLoginPrompt c) (videoRef c) (audioRef c) (prevVisibleRef c)
    (audioOnCanPlay c) ld cp (sync c) (audioQueue c) (trace c).

Definition setSync (s : option SyncClosure) (c : Card) : Card :=
  mkCard (props c) (committed c) (isVoiceoverPlaying c) (isVoiceoverMuted c) (committedMuted c)
    (isFavorited c) (showLoginPrompt c) (videoRef c) (audioRef c) (prevVisibleRef c)
    (audioOnCanPlay c) (onceLoadedData c) (onceCanPlay c) s (audioQueue c) (trace c).

Definition setQueue (q : list MediaEv) (c : Card) : Card :=
  mkCard (props c) (committed c) (isVoiceoverPlaying c) (isVoiceoverMuted c) (committedMuted c)
    (isFavorited c) (showLoginPrompt c) (videoRef c) (audioRef c) (prevVisibleRef c)
    (audioOnCanPlay c) (onceLoadedData c) (onceCanPlay c) (sync c) q (trace c).

(** Append one action to the trace. *)
Definition emit (a : Action) (c : Card) : Card :=
  mkCard (props c) (committed c) (isVoiceoverPlaying c) (isVoiceoverMuted c) (committedMuted c)
    (isFavorited c) (showLoginPrompt c) (videoRef c) (audioRef c) (prevVisibleRef c)
    (audioOnCanPlay c) (onceLoadedData c) (onceCanPlay c) (sync c) (audioQueue c)
    (trace c ++ [a]).

(** *** Operations on the audio and video elements

    Each is used after the handler's null check; on an absent element
    they leave the card as it is. *)

(** [audioElement.currentTime = t] *)
Definition audioSeek (t : Q) (c : Card) : Card :=
  match audioRef c with
  | Some a => emit (AudioSeek t) (setAudio (seek t a) c)
  | None => c
  end.

(** [audioElement.pause()] *)
Definition audioPause (c : Card) : Card :=
  match audioRef c with
  | Some a =>
      let '(a', evs) := pause a in
      emit AudioPause (setQueue (audioQueue c ++ evs) (setAudio a' c))
  | None => c
  end.

(** [audioElement.play()]; the boolean is whether the promise resolves. *)
Definition audioPlay (allowed : bool) (c : Card) : Card * bool :=
  match audioRef c with
  | Some a =>
      let '(a', evs, ok) := play allowed a in
      (emit (AudioPlay ok) (setQueue (audioQueue c ++ evs) (setAudio a' c)), ok)
  | None => (c, false)
  end.

(** [audioElement.load()] *)
Definition audioLoad (c : Card) : Card :=
  match audioRef c with
  | Some a => emit AudioLoad (setAudio (load a) c)
  | None => c
  end.

(** [audioElement.play().catch(e => console.log(msg, e))] *)
Definition audioPlayCatch (msg : LogLine) (allowed : bool) (c : Card) : Card :=
  let '(c', ok) := audioPlay allowed c in
  if ok then c' else emit (Console msg) c'.

(** [0.7] when unmuted, [0] when muted. *)
Definition voiceoverVolume (muted : bool) : Q := if muted then 0%Q else (7 # 10)%Q.

(** What the platform answers to [play()] requests during one handler. *)
Record Platform := mkPlatform {
  allowAudio : bool;
  allowVideo : bool
}.

(** *** Rendering *)

Inductive Background :=
| VideoBackground (muted autoPlay playsInline loopAttr : bool)
| GradientPlaceholder.

Record Rendered := mkRendered {
  background : Background;
  voiceoverControls : bool;
  audioElement : bool;
  loginPrompt : bool
}.

(** The JSX returned by the component, reduced to the elements the
    playback core depends on. *)
Definition render (p : Props) (c : Card) : Rendered :=
  mkRendered
    (if hasVideo p then VideoBackground true true true true else GradientPlaceholder)
    (hasVoiceover p)
    (hasVoiceover p)
    (showLoginPrompt c).

(** React attaches the refs of the rendered elements before effects run:
    an element that stays rendered keeps its identity, a new one is fresh,
    a removed one leaves [null]. *)
Definition attachRefs (p : Props) (c : Card) : Card :=
  mkCard (props c) (committed c) (isVoiceoverPlaying c) (isVoiceoverMuted c) (committedMuted c)
    (isFavorited c) (showLoginPrompt c)
    (match background (render p c) with
     | VideoBackground _ _ _ l =>
         Some (match videoRef c with Some v => v | None => fresh l end)
     | GradientPlaceholder => None
     end)
    (if audioElement (render p c)
     then Some (match audioRef c with Some a => a | None => fresh false end)
     else None)
    (prevVisibleRef c)
    (audioOnCanPlay c) (onceLoadedData c) (onceCanPlay c) (sync c) (audioQueue c) (trace c).

(** The component instance before its first commit: [useState] and
    [useRef] initial values. *)
Definition unmounted (p : Props) : Card :=
  mkCard p false false false false false false None None false None 0 0 None [] [].

(** *** The stop announcement *)

(** Effect "Global audio manager": announce when the card just became
    visible.  The announcement is returned for the window to deliver. *)
Definition stopOthersEffect (p : Props) (c : Card) : Card * option StopEvent :=
  if isVisible p && negb (prevVisibleRef c)
  then let ev := mkStop (recipeIndex p) (recipeIndex p) in
       (emit (Dispatch ev) c, Some ev)
  else (c, None).

(** Listener [handleStopAudio], registered by every committed card. *)
Definition handleStopAudio (ev : StopEvent) (c : Card) : Card :=
  if negb (committed c) then c
  else if negb (exceptIndex ev =? recipeIndex (props c))
          && negb (newVisibleIndex ev =? recipeIndex (props c))
  then match audioRef c with
       | Some _ =>
           emit (Console LogAudioStopped)
             (setIsVoiceoverPlaying false (audioSeek 0 (audioPause c)))
       | None => c
       end
  else c.

(** *** Loading effects *)

(** Effect "Video loading".  URLs are taken to be absolute, so that the
    [src] getter returns the string that was assigned.  Its dependency
    [videoUrls] is an array that the hosts rebuild when they render, so the
    effect runs at every commit; once the source is attached a run only
    logs. *)
Definition videoLoadEffect (p : Props) (pf : Platform) (c : Card) : Card :=
  match videoRef c with
  | None => c
  | Some v =>
      match videoUrls p with
      | [] => c
      | videoUrl :: _ =>
          let c := emit (Console LogLoadingVideo) c in
          if negb (String.eqb (src v) videoUrl)
          then
            let v1 := load (load (withSrc videoUrl v)) in
            let '(v2, _, ok) := play (allowVideo pf) v1 in
            let c := emit (VideoPlay ok) (emit VideoLoad (setVideo v2 c)) in
            if ok then c else emit (Console LogVideoPlayFailed) c
          else c
      end
  end.

(** Effect "Voiceover audio": attach the source and the [oncanplay]
    handler, which closes over [isVisible] and [isVoiceoverMuted]. *)
Definition voiceoverLoadEffect (p : Props) (c : Card) : Card :=
  match audioRef c with
  | None => c
  | Some a =>
      if negb (hasVoiceover p) then c
      else match voiceoverUrl p with
           | None => c
           | Some url =>
               let vol := voiceoverVolume (isVoiceoverMuted c) in
               if negb (String.eqb (src a) url)
               then
                 let a1 := load (withLoop true (withVolume vol (load (withSrc url a)))) in
                 setOnCanPlay (Some (isVisible p, isVoiceoverMuted c))
                   (emit AudioLoad (setAudio a1 c))
               else setAudio (withVolume vol a) c
           end
  end.

(** *** Starting and stopping the voiceover *)

(** [attemptPlay]: rewind, request playback, and flag the card as playing
    when the request is accepted; a rejection is logged.  (The promise
    callbacks are run at the point of the call: they run before the task
    ends.) *)
Definition attemptPlay (pf : Platform) (c : Card) : Card :=
  let c := audioSeek 0 c in
  let '(c, ok) := audioPlay (allowAudio pf) c in
  if ok
  then emit (Console LogNowPlaying) (setIsVoiceoverPlaying true c)
  else emit (Console LogAutoPlayBlocked) c.

(** Effect "Play/pause voiceover based on visibility". *)
Definition playPauseEffect (p : Props) (pf : Platform) (c : Card) : Card :=
  match audioRef c with
  | None => c
  | Some a =>
      if negb (hasVoiceover p) then c
      else
        let wasVisible := prevVisibleRef c in
        let justBecameVisible := isVisible p && negb wasVisible in
        let justBecameHidden := negb (isVisible p) && wasVisible in
        let muted := isVoiceoverMuted c in
        let c1 :=
          if justBecameVisible && negb muted then
            let c := emit (Console LogStartingAudio) c in
            let c := audioSeek 0 c in
            if (2 <=? readyState a)%nat then attemptPlay pf c
            else
              let c := setOnce (S (onceLoadedData c)) (S (onceCanPlay c)) c in
              if (readyState a =? 0)%nat then audioLoad c else c
          else if justBecameHidden then
            let c := emit (Console LogStoppingAudio) c in
            setIsVoiceoverPlaying false (audioSeek 0 (audioPause c))
          else if isVisible p && negb muted && paused a && negb justBecameVisible then
            audioPlayCatch LogPlayFailed (allowAudio pf) c
          else if negb (isVisible p) && negb (paused a) then
            setIsVoiceoverPlaying false (audioSeek 0 (audioPause c))
          else c in
        setPrevVisible (isVisible p) c1
  end.

(** *** Audio element listeners (effect "Handle audio playback events") *)

(** [handlePlay] / [handlePause] *)
Definition handleMediaEv (e : MediaEv) (c : Card) : Card :=
  match e with
  | EvPlay => setIsVoiceoverPlaying true c
  | EvPause => setIsVoiceoverPlaying false c
  end.

(** The next queued [play] / [pause] event reaches its listener. *)
Definition deliverAudioEvent (c : Card) : Card :=
  match audioQueue c with
  | [] => c
  | e :: q => handleMediaEv e (setQueue q c)
  end.

(** [handleEnded]; it closes over the props and mute flag of the last commit. *)
Definition handleEnded (pf : Platform) (c : Card) : Card :=
  match audioRef c with
  | None => c
  | Some _ =>
      if isVisible (props c) && negb (committedMuted c)
      then audioPlayCatch LogRestartFailed (allowAudio pf) (audioSeek 0 c)
      else c
  end.

(** The [oncanplay] property installed by the voiceover loading effect. *)
Definition runOnCanPlay (pf : Platform) (c : Card) : Card :=
  match audioOnCanPlay c with
  | None => c
  | Some (visible, muted) =>
      let c := emit (Console LogVoiceoverReady) c in
      if visible && negb muted
      then audioPlayCatch LogPlayAfterLoadPrevented (allowAudio pf) (audioSeek 0 c)
      else c
  end.

Fixpoint repeatAttempt (n : nat) (pf : Platform) (c : Card) : Card :=
  match n with
  | O => c
  | S n' => repeatAttempt n' pf (attemptPlay pf c)
  end.

(** The audio element fires [canplay]: the property handler runs, then the
    one-shot listeners left by activations. *)
Definition onAudioCanPlay (pf : Platform) (c : Card) : Card :=
  let c := runOnCanPlay pf c in
  let n := onceCanPlay c in
  repeatAttempt n pf (setOnce (onceLoadedData c) 0 c).

(** The audio element fires [loadeddata]. *)
Definition onAudioLoadedData (pf : Platform) (c : Card) : Card :=
  let n := onceLoadedData c in
  repeatAttempt n pf (setOnce 0 (onceCanPlay c) c).

(** *** Audio/video sync (effect "Sync audio with video") *)

(** The effect body: cleanup of the previous closure, then a fresh
    [lastVideoTime = 0], [syncTimeout = null] when the guard passes. *)
Definition syncEffect (p : Props) (c : Card) : Card :=
  match videoRef c, audioRef c with
  | Some _, Some _ =>
      if hasVideo p && hasVoiceover p && isVisible p
      then setSync (Some (mkSync 0 None)) c
      else setSync None c
  | _, _ => setSync None c
  end.

(** Truthiness of [videoElement.duration]. *)
Definition truthyNumber (d : option Q) : bool :=
  match d with
  | None => false
  | Some d' => negb (Qeq_bool d' 0)
  end.

(** [duration && lastVideoTime > duration - 0.3 && currentTime < 0.3] *)
Definition loopDetected (d : option Q) (lastTime time : Q) : bool :=
  match d with
  | None => false
  | Some d' =>
      negb (Qeq_bool d' 0)
      && Qltb (d' - (3 # 10))%Q lastTime
      && Qltb time (3 # 10)
  end.

(** [handleVideoTimeUpdate], invoked at clock [now] (ms). *)
Definition handleVideoTimeUpdate (now : Z) (pf : Platform) (c : Card) : Card :=
  match sync c, videoRef c, audioRef c with
  | Some s, Some v, Some a =>
      let time := currentTime v in
      let c1 :=
        if loopDetected (duration v) (lastVideoTime s) time then
          if negb (committedMuted c) then
            let c := audioSeek 0 c in
            if paused a then audioPlayCatch LogSyncOnLoopFailed (allowAudio pf) c else c
          else c
        else c in
      setSync (Some (mkSync time (Some (now + 2000, time)))) c1
  | _, _, _ => c
  end.

(** The body of the [setTimeout] callback; [captured] is the video time
    read by the [timeupdate] that armed the timer. *)
Definition syncCheck (captured : Q) (c : Card) : Card :=
  match videoRef c, audioRef c with
  | Some v, Some a =>
      if negb (paused a) && negb (paused v) then
        let expected := jsmod captured (duration a) in
        if absDiffGt (currentTime a) expected 1 then
          match expected with
          | Some e => audioSeek e c
          | None => c
          end
        else c
      else c
  | _, _ => c
  end.

(** The clock reaches [now]: a pending sync timer whose deadline has
    passed fires. *)
Definition timerTick (now : Z) (c : Card) : Card :=
  match sync c with
  | Some s =>
      match syncTimeout s with
      | Some (deadline, captured) =>
          if deadline <=? now
          then syncCheck captured (setSync (Some (mkSync (lastVideoTime s) None)) c)
          else c
      | None => c
      end
  | None => c
  end.

(** The video element reports a new position [t] at clock [now]. *)
Definition onVideoTimeUpdate (now : Z) (t : Q) (pf : Platform) (c : Card) : Card :=
  let c := timerTick now c in
  match videoRef c with
  | Some v => handleVideoTimeUpdate now pf (setVideo (seek t v) c)
  | None => c
  end.

(** [handleVideoEnded] *)
Definition handleVideoEnded (pf : Platform) (c : Card) : Card :=
  match videoRef c with
  | None => c
  | Some v =>
      if hasVideo (props c) then
        let '(v', _, ok) := play (allowVideo pf) (seek 0 v) in
        let c := emit (VideoPlay ok) (emit (VideoSeek 0) (setVideo v' c)) in
        match audioRef c with
        | Some a =>
            if hasVoiceover (props c) && isVisible (props c) && negb (committedMuted c)
            then
              let c := audioSeek 0 c in
              if paused a
              then audioPlayCatch LogRestartOnLoopFailed (allowAudio pf) c
              else c
            else c
        | None => c
        end
      else c
  end.

(** *** Commit: the effects of one render, in declaration order *)

Definition optStringEqb (a b : option string) : bool :=
  match a, b with
  | None, None => true
  | Some x, Some y => String.eqb x y
  | _, _ => false
  end.

(** Dependency arrays, compared with the previous commit. *)
Definition visibilityDepsChanged (p : Props) (c : Card) : bool :=
  negb (committed c)
  || negb (Bool.eqb (isVisible p) (isVisible (props c)))
  || negb (recipeIndex p =? recipeIndex (props c))
  || negb (String.eqb (recipeTitle p) (recipeTitle (props c))).

Definition voiceoverDepsChanged (p : Props) (c : Card) : bool :=
  visibilityDepsChanged p c
  || negb (optStringEqb (voiceoverUrl p) (voiceoverUrl (props c)))
  || negb (Bool.eqb (isVoiceoverMuted c) (committedMuted c)).

Definition playPauseDepsChanged (p : Props) (c : Card) : bool :=
  voiceoverDepsChanged p c
  || negb (Bool.eqb (hasVideo p) (hasVideo (props c))).

Definition syncDepsChanged (p : Props) (c : Card) : bool :=
  negb (committed c)
  || negb (Bool.eqb (hasVideo p) (hasVideo (props c)))
  || negb (Bool.eqb (hasVoiceover p) (hasVoiceover (props c)))
  || negb (Bool.eqb (isVisible p) (isVisible (props c)))
  || negb (Bool.eqb (isVoiceoverMuted c) (committedMuted c)).

(** The announcing effect of a commit (the window delivers its event
    before the remaining effects run). *)
Definition commitAnnounce (p : Props) (c : Card) : Card * option StopEvent :=
  let c := attachRefs p c in
  if visibilityDepsChanged p c then stopOthersEffect p c else (c, None).

(** The remaining effects of a commit. *)
Definition commitRest (p : Props) (pf : Platform) (c : Card) : Card :=
  let runVoiceover := voiceoverDepsChanged p c in
  let runPlayPause := playPauseDepsChanged p c in
  let runSync := syncDepsChanged p c in
  let c := videoLoadEffect p pf c in
  let c := if runVoiceover then voiceoverLoadEffect p c else c in
  let c := if runPlayPause then playPauseEffect p pf c else c in
  let c := if runSync then syncEffect p c else c in
  setProps p c.

(** A commit of a card that is alone on the page: its own announcement
    reaches only its own listener. *)
Definition commit (p : Props) (pf : Platform) (c : Card) : Card :=
  let '(c1, ev) := commitAnnounce p c in
  let c2 := match ev with
            | Some e => handleStopAudio e c1
            | None => c1
            end in
  commitRest p pf c2.

(** Mounting: the first commit of a new instance. *)
Definition mount (p : Props) (pf : Platform) : Card := commit p pf (unmounted p).

(** *** User controls *)

(** [toggleVoiceover] *)
Definition toggleVoiceover (pf : Platform) (c : Card) : Card :=
  match audioRef c with
  | None => c
  | Some _ =>
      if isVoiceoverPlaying c then audioPause c
      else audioPlayCatch LogPlayFailed (allowAudio pf) c
  end.

(** [toggleVoiceoverMute], followed by the re-render its state change causes. *)
Definition toggleVoiceoverMute (pf : Platform) (c : Card) : Card :=
  match audioRef c with
  | None => c
  | Some a =>
      let newMuted := negb (isVoiceoverMuted c) in
      commit (props c) pf
        (setIsVoiceoverMuted newMuted (setAudio (withVolume (voiceoverVolume newMuted) a) c))
  end.

End Card.

(** ** The favorite button of a card *)

Module Favorites.
Import Card.

Section Store.

  (** The favorites store is an external collaborator: its state and its
      two mutating operations are parameters. *)
Variable Store : Type.
Variable removeFavorite : string -> list string -> Store -> Store.
Variable addFavorite :
    string -> list string -> list string -> option string -> Store -> Store.

  (** A card together with what its favorite button can reach: the store
      and the number of [onFavoriteChange] notifications sent so far. *)
Record Session := mkSession {
    card : Card;
    store : Store;
    favoriteChanges : nat
  }.

  (** The [onClick] of the favorite button; [authenticated] is what
      [authService.isAuthenticated()] answers. *)
Definition favoriteClick (authenticated : bool) (s : Session) : Session :=
    let c := card s in
    if negb authenticated
    then mkSession (setShowLoginPrompt true c) (store s) (favoriteChanges s)
    else
      match culinaryPlan (props c) with
      | Some plan =>
          if isFavorited c
          then mkSession (setIsFavorited false c)
                 (removeFavorite (recipeTitle (props c)) (ingredients plan) (store s))
                 (S (favoriteChanges s))
          else mkSession (setIsFavorited true c)
                 (addFavorite (recipeTitle (props c)) (ingredients plan)
                    (videoUrls (props c)) (voiceoverUrl (props c)) (store s))
                 (S (favoriteChanges s))
      | None => s
      end.

End Store.

End Favorites.

(** ** The hosts that mount cards, and the window that connects them *)

Module Hosts.
Import Card.

Fixpoint mapi {A B : Type} (f : nat -> A -> B) (index : nat) (l : list A) : list B :=
  match l with
  | [] => []
  | x :: rest => f index x :: mapi f (S index) rest
  end.

(** [x || []] *)
Definition orEmpty (x : option (list string)) : list string :=
  match x with
  | Some l => l
  | None => []
  end.

(** [url ? { 0: url } : undefined] *)
Definition voiceoverObject (url : option string) : option (list (Z * string)) :=
  match url with
  | Some u => if truthy url then Some [(0, u)] else None
  | None => None
  end.

(** *** FavoritesView *)

Record FavoriteRecipe := mkFavorite {
  favTitle : string;
  favIngredients : list string;
  favVideoUrls : option (list string);
  favVoiceoverUrl : option string
}.

(** The card written for favorite number [index]. *)
Definition favoriteCard (visibleFavoriteIndex : Z) (index : nat) (favorite : FavoriteRecipe)
    : CardAttrs :=
  let plan := mkPlan (favIngredients favorite) [favTitle favorite]
                (Some (orEmpty (favVideoUrls favorite)))
                (Some [(0, orEmpty (favVideoUrls favorite))])
                (voiceoverObject (favVoiceoverUrl favorite)) in
  mkAttrs (favTitle favorite) (orEmpty (favVideoUrls favorite)) (Some plan)
    (Some (visibleFavoriteIndex =? Z.of_nat index))
    (Some 0).

Definition favoritesView (favorites : list FavoriteRecipe) (visibleFavoriteIndex : Z)
    : list CardAttrs :=
  mapi (favoriteCard visibleFavoriteIndex) 0 favorites.

(** *** FeedView *)

Record FeedItem := mkFeedItem {
  feedTitle : string;
  feedVideoUrl : option string;
  feedVoiceoverUrl : option string
}.

(** [url ? [url] : []] *)
Definition singleton (url : option string) : list string :=
  match url with
  | Some u => if truthy url then [u] else []
  | None => []
  end.

Definition feedCard (visibleItemIndex : Z) (index : nat) (feedItem : FeedItem) : CardAttrs :=
  let plan := mkPlan [] [feedTitle feedItem]
                (Some (singleton (feedVideoUrl feedItem)))
                (Some (if truthy (feedVideoUrl feedItem)
                       then [(0, singleton (feedVideoUrl feedItem))] else []))
                (voiceoverObject (feedVoiceoverUrl feedItem)) in
  mkAttrs (feedTitle feedItem) (singleton (feedVideoUrl feedItem)) (Some plan)
    (Some (visibleItemIndex =? Z.of_nat index))
    (Some (Z.of_nat index)).

Definition feedView (feedItems : list FeedItem) (visibleItemIndex : Z) : list CardAttrs :=
  mapi (feedCard visibleItemIndex) 0 feedItems.

(** *** RecipeScroller *)

Definition nonEmpty (x : option (list string)) : bool :=
  match x with
  | Some (_ :: _) => true
  | _ => false
  end.

(** The [videoUrls] chosen for recipe number [index]. *)
Definition scrollerVideoUrls (plan : CulinaryPlan) (index : nat) : list string :=
  let recipeVideoArray :=
    match recipeVideos plan with
    | Some o => lookupKey (Z.of_nat index) o
    | None => None
    end in
  if nonEmpty recipeVideoArray then orEmpty recipeVideoArray
  else if Nat.eqb index 0 && nonEmpty (planVideoUrls plan) then orEmpty (planVideoUrls plan)
  else [].

(** The card written for recipe number [index]: no [isVisible], no
    [recipeIndex]. *)
Definition scrollerCard (plan : CulinaryPlan) (index : nat) (title : string) : CardAttrs :=
  mkAttrs title (scrollerVideoUrls plan index) (Some plan) None None.

Definition recipeScroller (plan : CulinaryPlan) : list CardAttrs :=
  mapi (scrollerCard plan) 0 (recipes plan).

(** *** The window: mounted cards and synchronous event delivery *)








End Hosts.

(** ** A card reacting to what happens on the page *)

Module Page.
Import Media Card.

(** The audio or video element of the card buffers or advances. *)
Definition audioProgress (rs : nat) (d : option Q) (t : Q) (c : Card) : Card :=
  match audioRef c with
  | Some a => setAudio (progress rs d t a) c
  | None => c
  end.

Definition videoProgress (rs : nat) (d : option Q) (t : Q) (c : Card) : Card :=
  match videoRef c with
  | Some v => setVideo (progress rs d t v) c
  | None => c
  end.

Inductive CardEvent :=
| Rerender (a : CardAttrs)
    (** the host renders the card again *)
| StopAnnounced (ev : StopEvent)
    (** another card dispatched [stopAllRecipeAudio] *)
| AudioProgress (rs : nat) (d : option Q) (t : Q)
| VideoProgress (rs : nat) (d : option Q) (t : Q)
| AudioCanPlay
| AudioLoadedData
| AudioEventDelivered
    (** the next queued [play] / [pause] event is dispatched *)
| AudioEnded
| VideoTimeUpdate (now : Z) (t : Q)
| ClockTick (now : Z)
| VideoEnded
| ClickToggleVoiceover
| ClickToggleMute.

(** One task of the event loop on a card; [pf] is how the platform
    answers [play()] during it. *)
Definition react (c : Card) (e : Platform * CardEvent) : Card :=
  let pf := fst e in
  match snd e with
  | Rerender a => commit (destructure a) pf c
  | StopAnnounced ev => handleStopAudio ev c
  | AudioProgress rs d t => audioProgress rs d t c
  | VideoProgress rs d t => videoProgress rs d t c
  | AudioCanPlay => onAudioCanPlay pf c
  | AudioLoadedData => onAudioLoadedData pf c
  | AudioEventDelivered => deliverAudioEvent c
  | AudioEnded => handleEnded pf c
  | VideoTimeUpdate now t => onVideoTimeUpdate now t pf c
  | ClockTick now => timerTick now c
  | VideoEnded => handleVideoEnded pf c
  | ClickToggleVoiceover => toggleVoiceover pf c
  | ClickToggleMute => toggleVoiceoverMute pf c
  end.

Definition reactAll (es : list (Platform * CardEvent)) (c : Card) : Card :=
  fold_left react es c.

(** The props of a card with [isVisible] replaced. *)
Definition withVisible (b : bool) (p : Props) : Props :=
  mkProps (recipeTitle p) (videoUrls p) (culinaryPlan p) b (recipeIndex p).

(** The audio position of a card, when it has an audio element. *)
Definition audioTime (c : Card) : option Q := option_map currentTime (audioRef c).

Definition videoTime (c : Card) : option Q := option_map currentTime (videoRef c).

Definition audioPaused (c : Card) : option bool := option_map paused (audioRef c).

End Page.

(** ** What the estimators are expected to pick *)

Module TrackerSpec.
Import JsNum Tracker.

(** Position [k] of the batch holds a usable entry (index [>= 0]) with a
    positive ratio that no usable entry exceeds and no earlier usable
    entry reaches. *)
Definition FirstHighest (entries : list Entry) (k : nat) (e : Entry) : Prop :=
  nth_error entries k = Some e
  /\ 0 <= entryIndex e
  /\ (0 < intersectionRatio e)%Q
  /\ (forall e', In e' entries -> 0 <= entryIndex e' ->
        (intersectionRatio e' <= intersectionRatio e)%Q)
  /\ (forall k' e', (k' < k)%nat -> nth_error entries k' = Some e' ->
        0 <= entryIndex e' -> (intersectionRatio e' < intersectionRatio e)%Q).


(** Invariant of the intersection loop after the entries [seen]. *)
Definition SeenEntries (seen : list Entry) (st : Q * Z) : Prop :=
  (forall e, In e seen -> 0 <= entryIndex e -> (intersectionRatio e <= fst st)%Q)
  /\ ((snd st = -1 /\ fst st = 0%Q)
      \/ exists k e, FirstHighest seen k e
                     /\ snd st = entryIndex e /\ fst st = intersectionRatio e).

(** Invariant of the scroll loop after the refs [seen]. *)
Definition SeenRefs (s : Scroller) (seen : list (option DOMRect)) (st : Z * option Q) : Prop :=
  (fst st = -1 /\ snd st = None
   /\ forall j r, nth_error seen j <> Some (Some r))
  \/ exists k rect,
       fst st = Z.of_nat k
       /\ snd st = Some (distanceFromCenter s rect)
       /\ nth_error seen k = Some (Some rect)
       /\ forall j r, nth_error seen j = Some (Some r) ->
            (distanceFromCenter s rect <= distanceFromCenter s r)%Q
            /\ ((j < k)%nat -> (distanceFromCenter s rect < distanceFromCenter s r)%Q).



End TrackerSpec.

(** ** Invariants of cards without media and of cards that stay hidden *)

Module Invariants.
Import JsNum Media Card Page.








(** Actions that are neither an announcement nor an audio play request. *)
Definition silent (a : Action) : bool :=
  match a with
  | Dispatch _ | AudioPlay _ => false
  | _ => true
  end.

(** The [oncanplay] closure, if any, captured [isVisible = false]. *)
Definition hiddenHandler (h : option (bool * bool)) : bool :=
  match h with
  | Some (true, _) => false
  | _ => true
  end.

(** A card whose every commit had [isVisible = false]. *)
Definition Quiet (c : Card) : Prop :=
  isVisible (props c) = false
  /\ prevVisibleRef c = false
  /\ hiddenHandler (audioOnCanPlay c) = true
  /\ onceLoadedData c = 0%nat
  /\ onceCanPlay c = 0%nat
  /\ sync c = None
  /\ forallb silent (trace c) = true.

(** What may happen to a card of the scroller without the user asking
    for playback: re-renders come from the scroller (no [isVisible]
    attribute), and the play button is not clicked. *)
Definition Unprompted (e : Platform * CardEvent) : Prop :=
  match snd e with
  | Rerender a => attrIsVisible a = None
  | ClickToggleVoiceover => False
  | _ => True
  end.

End Invariants.

(** ** Activation, and the scenarios the properties are checked on *)

Module Scenarios.
Import JsNum Media Card Page Hosts.

(** The video element, if rendered, already carries the first URL. *)
Definition videoAttached (c : Card) : bool :=
  match videoRef c, videoUrls (props c) with
  | Some v, url :: _ => String.eqb (src v) url
  | None, [] => true
  | _, _ => false
  end.

(** The audio element carries the voiceover URL. *)
Definition audioAttached (c : Card) : bool :=
  match audioRef c, voiceoverUrl (props c) with
  | Some a, Some url => String.eqb (src a) url
  | _, _ => false
  end.

(** A card with a voiceover as its last commit left it while hidden. *)
Definition settledHidden (c : Card) : bool :=
  committed c && negb (isVisible (props c)) && negb (prevVisibleRef c)
  && hasVoiceover (props c) && audioAttached c && videoAttached c
  && Bool.eqb (committedMuted c) (isVoiceoverMuted c).

(** The host flips [isVisible] from false to true. *)
Definition activate (pf : Platform) (c : Card) : Card :=
  commit (withVisible true (props c)) pf c.

Definition ownAnnouncement (c : Card) : StopEvent :=
  mkStop (recipeIndex (props c)) (recipeIndex (props c)).

(** What the video loading effect logs on a re-run. *)
Definition videoLog (c : Card) : list Action :=
  if hasVideo (props c) then [Console LogLoadingVideo] else [].

(** What [attemptPlay] does to the outside. *)
Definition attemptTrace (pf : Platform) : list Action :=
  [AudioSeek 0; AudioPlay (allowAudio pf);
   Console (if allowAudio pf then LogNowPlaying else LogAutoPlayBlocked)].

(** What the start branch does after its first rewind, for an audio
    element in ready state [rs]. *)
Definition startTrace (pf : Platform) (rs : nat) : list Action :=
  if (2 <=? rs)%nat then attemptTrace pf
  else if (rs =? 0)%nat then [AudioLoad] else [].

Record Settled (c : Card) (a : MediaElement) : Prop := mkSettled {
  settled_committed : committed c = true;
  settled_hidden : isVisible (props c) = false;
  settled_prev : prevVisibleRef c = false;
  settled_voiceover : hasVoiceover (props c) = true;
  settled_audio : audioRef c = Some a;
  settled_src : voiceoverUrl (props c) = Some (src a);
  settled_video : videoAttached c = true;
  settled_muted : committedMuted c = isVoiceoverMuted c
}.

(** The start branch of the play/pause effect. *)
Definition startBranch (pf : Platform) (rs : nat) (c : Card) : Card :=
  let c := audioSeek 0 (emit (Console LogStartingAudio) c) in
  if (2 <=? rs)%nat then attemptPlay pf c
  else
    let c := setOnce (S (onceLoadedData c)) (S (onceCanPlay c)) c in
    if (rs =? 0)%nat then audioLoad c else c.

(** A card with one video and a voiceover, mounted hidden; both media
    have loaded, and the looping video has reached 3.5 s. *)
Definition soupPlan : CulinaryPlan :=
  mkPlan ["leek"%string] ["Soup"%string] None None
    (Some [(0, "https://cdn.example/soup.mp3"%string)]).

Definition soupProps : Props :=
  mkProps "Soup" ["https://cdn.example/soup.mp4"%string] (Some soupPlan) false 0.

Definition allowing : Platform := mkPlatform true true.


Definition hiddenSoup : Card :=
  videoProgress 4 (Some 8%Q) (7 # 2) (audioProgress 4 (Some 8%Q) 0 (mount soupProps allowing)).

(** The card of [hiddenSoup], mounted visible instead; its audio has
    loaded and started, its 10-second video is at 1 s. *)
Definition visibleSoup : Props := withVisible true soupProps.

Definition playingSoup : Card :=
  videoProgress 4 (Some 10%Q) 1
    (deliverAudioEvent
       (onAudioCanPlay allowing
          (audioProgress 4 (Some 8%Q) 0 (mount visibleSoup allowing)))).





(** An optional position equals [q]. *)
Definition timeIs (o : option Q) (q : Q) : bool :=
  match o with
  | Some t => Qeq_bool t q
  | None => false
  end.

(** Both elements are playing. *)
Definition bothPlaying (c : Card) : bool :=
  match audioRef c, videoRef c with
  | Some a, Some v => negb (paused a) && negb (paused v)
  | _, _ => false
  end.

(** The condition of the sync check, on the positions the elements have
    now: the audio is more than 1 s away from video position mod audio
    duration. *)
Definition outOfSync (c : Card) : bool :=
  match audioRef c, videoRef c with
  | Some a, Some v => absDiffGt (currentTime a) (jsmod (currentTime v) (duration a)) 1
  | _, _ => false
  end.

(** Step [k] of four seconds of playback sampled every 250 ms: the audio
    runs 2.9 s ahead of the video, which reports its position. *)
Definition driftStep (k : nat) : list (Platform * CardEvent) :=
  [(allowing, AudioProgress 4 (Some 8%Q) ((39 # 10) + inject_Z (Z.of_nat k) / 4));
   (allowing, VideoTimeUpdate (250 * Z.of_nat k) (1 + inject_Z (Z.of_nat k) / 4))].

Definition driftEvents : list (Platform * CardEvent) := flat_map driftStep (seq 0 17).

(** The card after the first [k] steps. *)
Definition driftedAfter (k : nat) : Card :=
  reactAll (flat_map driftStep (seq 0 k)) playingSoup.

Definition countSeeks (tr : list Action) : nat :=
  List.length (filter (fun a => match a with AudioSeek _ => true | _ => false end) tr).





(** What one card looks like from outside: playing flag, paused, position. *)
Definition audible (c : Card) : bool * option bool * option Q :=
  (isVoiceoverPlaying c, audioPaused c, audioTime c).


End Scenarios.

(** ** The tracker effects of a list view, re-run after a render *)

Module TrackerEffects.
Import JsNum Tracker.

(** Both tracker effects of [FavoritesView] / [FeedView] list the
    published index among their dependencies, so each render with a new
    index runs them again, in declaration order: the observer effect ends
    with [if (refs.current[0]) setVisibleIndex(0)], the scroll effect ends
    with an immediate [handleScroll()].  Both close over the index of the
    render ([rendered]); their setter calls are applied in order, the last
    one deciding the next state. *)
Definition rerunEffects (firstRef : bool) (scroller : option Scroller)
    (refs : list (option DOMRect)) (v : ListView) : ListView :=
  if Nat.eqb (itemCount v) 0 then v
  else
    let rendered := visibleIndex v in
    let afterObserver := if firstRef then 0 else rendered in
    let afterScroll :=
      match scroller with
      | Some s => applyPublish (publish (closestIndex s refs) rendered) afterObserver
      | None => afterObserver
      end in
    mkView (itemCount v) afterScroll.

End TrackerEffects.

(** ** What a host renders *)

Module HostFacts.
Import Card Hosts.

(** How many of the rendered cards are told they are visible. *)
Definition countVisible (attrs : list CardAttrs) : nat :=
  List.length (filter (fun a => isVisible (destructure a)) attrs).

(** [o?.[0]] on an optional object keyed by recipe index. *)
Definition firstVoiceover (plan : CulinaryPlan) : option string :=
  match recipeVoiceovers plan with
  | Some o => lookupKey 0 o
  | None => None
  end.

End HostFacts.

(** ** Deactivation and the user controls of a shown card *)

Module Shown.
Import JsNum Media Card Page Scenarios.

(** A committed card with a voiceover whose last commit had it visible. *)
Definition settledVisible (c : Card) : bool :=
  committed c && isVisible (props c)
  && hasVoiceover (props c) && audioAttached c && videoAttached c
  && Bool.eqb (committedMuted c) (isVoiceoverMuted c).

(** The same as propositions, with the audio element named. *)
Record Visible (c : Card) (a : MediaElement) : Prop := mkVisible {
  visible_committed : committed c = true;
  visible_shown : isVisible (props c) = true;
  visible_voiceover : hasVoiceover (props c) = true;
  visible_audio : audioRef c = Some a;
  visible_src : voiceoverUrl (props c) = Some (src a);
  visible_video : videoAttached c = true;
  visible_muted : committedMuted c = isVoiceoverMuted c
}.

(** ... and whose play/pause effect has recorded that visibility. *)
Definition settledShown (c : Card) : bool :=
  settledVisible c && prevVisibleRef c.

(** The host flips [isVisible] from true to false. *)
Definition deactivate (pf : Platform) (c : Card) : Card :=
  commit (withVisible false (props c)) pf c.

(** The two stopping branches of the play/pause effect. *)
Definition stopBranch (logged : bool) (c : Card) : Card :=
  let c := if logged then emit (Console LogStoppingAudio) c else c in
  setIsVoiceoverPlaying false (audioSeek 0 (audioPause c)).

(** The play/pause effect of a commit with [isVisible = false]. *)
Definition hideBranch (a : MediaElement) (c : Card) : Card :=
  if prevVisibleRef c then stopBranch true c
  else if negb (paused a) then stopBranch false c
  else c.




End Shown.

(** ** The upload form ([ImageUploader]) *)

Module Uploader.

(** A [File] of the browser: its name and its MIME type. *)
Record File := mkFile {
  fileName : string;
  fileType : string
}.

(** The component state. [imagePreview] holds the file whose data URL is
    shown. *)
Record Form := mkForm {
  file : option File;
  imagePreview : option File;
  isDragging : bool
}.

Definition initialForm : Form := mkForm None None false.

(** What the form asks of its parent. *)
Inductive Request :=
| OnImageUpload (f : File)
| OnTestMode (f : File).

(** [handleFileChange]; the preview arrives later, when the reader has
    finished ([PreviewLoaded]). *)
Definition handleFileChange (selectedFile : File) (s : Form) : Form :=
  mkForm (Some selectedFile) (imagePreview s) (isDragging s).

(** [handleInputChange]: [event.target.files?.[0]] *)
Definition handleInputChange (files : list File) (s : Form) : Form :=
  match files with
  | selectedFile :: _ => handleFileChange selectedFile s
  | [] => s
  end.

(** [droppedFile.type.startsWith('image/')] *)
Definition isImage (f : File) : bool := String.prefix "image/" (fileType f).

(** [handleDrop]: [e.dataTransfer.files?.[0]] *)
Definition handleDrop (files : list File) (s : Form) : Form :=
  let s := mkForm (file s) (imagePreview s) false in
  match files with
  | droppedFile :: _ => if isImage droppedFile then handleFileChange droppedFile s else s
  | [] => s
  end.

Definition handleDragOver (s : Form) : Form := mkForm (file s) (imagePreview s) true.

Definition handleDragLeave (s : Form) : Form := mkForm (file s) (imagePreview s) false.

(** [handleGenerateClick] *)
Definition handleGenerateClick (s : Form) : list Request :=
  match file s with
  | Some f => [OnImageUpload f]
  | None => []
  end.

(** [handleTestModeClick]; [onTestMode] is an optional prop. *)
Definition handleTestModeClick (onTestMode : bool) (s : Form) : list Request :=
  match file s with
  | Some f => if onTestMode then [OnTestMode f] else []
  | None => []
  end.

Inductive FormEvent :=
| InputChange (files : list File)
| Drop (files : list File)
| DragOver
| DragLeave
| PreviewLoaded (f : File)
    (** [reader.onloadend] of the reader started for [f] *)
| GenerateClick
| TestModeClick.

(** One event: the next state and the requests made of the parent. *)
Definition formStep (onTestMode : bool) (s : Form) (e : FormEvent) : Form * list Request :=
  match e with
  | InputChange files => (handleInputChange files s, [])
  | Drop files => (handleDrop files s, [])
  | DragOver => (handleDragOver s, [])
  | DragLeave => (handleDragLeave s, [])
  | PreviewLoaded f => (mkForm (file s) (Some f) (isDragging s), [])
  | GenerateClick => (s, handleGenerateClick s)
  | TestModeClick => (s, handleTestModeClick onTestMode s)
  end.

Fixpoint formRun (onTestMode : bool) (s : Form) (evs : list FormEvent)
    : Form * list Request :=
  match evs with
  | [] => (s, [])
  | e :: rest =>
      let '(s1, out1) := formStep onTestMode s e in
      let '(s2, out2) := formRun onTestMode s1 rest in
      (s2, out1 ++ out2)
  end.

(** The files a sequence of events offers that the form takes: the first
    file of an input change, the first file of a drop when it is an image. *)
Definition offered (e : FormEvent) : option File :=
  match e with
  | InputChange (f :: _) => Some f
  | Drop (f :: _) => if isImage f then Some f else None
  | _ => None
  end.

Fixpoint lastOffered (start : option File) (evs : list FormEvent) : option File :=
  match evs with
  | [] => start
  | e :: rest =>
      lastOffered (match offered e with Some f => Some f | None => start end) rest
  end.

Definition requestFile (r : Request) : File :=
  match r with
  | OnImageUpload f => f
  | OnTestMode f => f
  end.

End Uploader.

(** ** The plan service ([generateCulinaryPlan]) *)

Module Gemini.
Import Card.

(** [Recipe] of [types.ts]; [time_minutes] is kept as the text a template
    literal prints for it. *)
Record Recipe := mkRecipe {
  title : string;
  time_minutes : string;
  difficulty : string;
  steps : list string
}.

(** [CulinaryPlan] as the service returns it; of the storyboard only the
    [voiceover_script] is read by the code embedded here. *)
Record GeneratedPlan := mkGenerated {
  genIngredients : list string;
  genRecipes : list Recipe;
  genStoryboard : string
}.

(** A thrown value: an [Error] with its message, or anything else. *)
Inductive Thrown :=
| ErrorObject (message : string)
| OtherValue.

(** What [ensureApiKey] can observe: whether [window.aistudio] offers
    [hasSelectedApiKey], what that answers, and [process.env.API_KEY] as it
    is at the start and as it is once the key dialog has closed. *)
Record KeyEnvironment := mkKeyEnv {
  aistudio : bool;
  hasSelectedApiKey : bool;
  envKey : option string;
  envKeyAfterDialog : option string
}.

Definition cancelledMessage : string :=
  "API key selection was cancelled or failed. Please try again.".

Definition notConfiguredMessage : string :=
  "API key is not configured or could not be obtained.".

Definition invalidResponseMessage : string :=
  "The AI returned an invalid response. This can happen with complex images. Please try a different image or try again.".

(** [ensureApiKey]: the key or the thrown error, and whether
    [openSelectKey] was called. *)
Definition ensureApiKey (env : KeyEnvironment) : (string + Thrown) * bool :=
  if aistudio env then
    let opened := negb (hasSelectedApiKey env) in
    let key := if opened then envKeyAfterDialog env else envKey env in
    match key with
    | Some k => if truthy key then (inl k, opened)
                else (inr (ErrorObject cancelledMessage), opened)
    | None => (inr (ErrorObject cancelledMessage), opened)
    end
  else
    match envKey env with
    | Some k => if truthy (envKey env) then (inl k, false)
                else (inr (ErrorObject notConfiguredMessage), false)
    | None => (inr (ErrorObject notConfiguredMessage), false)
    end.

(** [generateCulinaryPlan].  The model call is external: [respond] is what
    [generateContent] does for the key it is given (the response text, or
    a thrown value), and [parse] is [JSON.parse] on the trimmed text
    ([None] when it throws). *)
Definition generateCulinaryPlan (env : KeyEnvironment)
    (respond : string -> string + Thrown) (parse : string -> option GeneratedPlan)
    : GeneratedPlan + Thrown :=
  match fst (ensureApiKey env) with
  | inr t => inr t
  | inl apiKey =>
      match respond apiKey with
      | inr t => inr t
      | inl jsonText =>
          match parse jsonText with
          | Some plan => inl plan
          | None => inr (ErrorObject invalidResponseMessage)
          end
      end
  end.

End Gemini.

(** ** The application shell ([App]) *)

Module AppShell.
Import Card Hosts Uploader Gemini.

Inductive AppState :=
| UPLOADING
| GENERATING
| GENERATING_VIDEOS
| DISPLAYING_RECIPES
| FAVORITES
| ERROR.

(** The state that decides which screen and which cards are shown (the
    progress texts and counters of the generating screens are left out). *)
Record AppModel := mkApp {
  appState : AppState;
  culinaryPlan : option CulinaryPlan;
  error : option string;
  imagePreview : option File;
  user : option string;
  isLoginModalOpen : bool;
  favoriteCount : nat
}.

(** The [useState] initial values. *)
Definition initialApp : AppModel :=
  mkApp UPLOADING None None None None false 0.

Definition setAppState (a : AppState) (m : AppModel) : AppModel :=
  mkApp a (culinaryPlan m) (error m) (imagePreview m) (user m)
    (isLoginModalOpen m) (favoriteCount m).

Definition setCulinaryPlan (p : option CulinaryPlan) (m : AppModel) : AppModel :=
  mkApp (appState m) p (error m) (imagePreview m) (user m)
    (isLoginModalOpen m) (favoriteCount m).

Definition setError (e : option string) (m : AppModel) : AppModel :=
  mkApp (appState m) (culinaryPlan m) e (imagePreview m) (user m)
    (isLoginModalOpen m) (favoriteCount m).

Definition setImagePreview (f : option File) (m : AppModel) : AppModel :=
  mkApp (appState m) (culinaryPlan m) (error m) f (user m)
    (isLoginModalOpen m) (favoriteCount m).

Definition setUser (u : option string) (m : AppModel) : AppModel :=
  mkApp (appState m) (culinaryPlan m) (error m) (imagePreview m) u
    (isLoginModalOpen m) (favoriteCount m).

Definition setIsLoginModalOpen (b : bool) (m : AppModel) : AppModel :=
  mkApp (appState m) (culinaryPlan m) (error m) (imagePreview m) (user m)
    b (favoriteCount m).

Definition setFavoriteCount (n : nat) (m : AppModel) : AppModel :=
  mkApp (appState m) (culinaryPlan m) (error m) (imagePreview m) (user m)
    (isLoginModalOpen m) n.

(** *** Session handlers *)

(** The mount effect: [authService.getCurrentUser()] and, for a signed-in
    user, [favoritesService.getFavoriteCount()]. *)
Definition mountEffect (currentUser : option string) (count : nat) (m : AppModel) : AppModel :=
  let m := setUser currentUser m in
  match currentUser with
  | Some _ => setFavoriteCount count m
  | None => m
  end.

(** [handleLogin] *)
Definition handleLogin (loggedInUser : option string) (count : nat) (m : AppModel) : AppModel :=
  setIsLoginModalOpen false (setFavoriteCount count (setUser loggedInUser m)).

(** [handleLogout] *)
Definition handleLogout (m : AppModel) : AppModel :=
  let m' := setFavoriteCount 0 (setUser None m) in
  match appState m with
  | FAVORITES => setAppState UPLOADING m'
  | _ => m'
  end.

(** [handleFavoriteChange] *)
Definition handleFavoriteChange (count : nat) (m : AppModel) : AppModel :=
  match user m with
  | Some _ => setFavoriteCount count m
  | None => m
  end.

(** [handleShowFavorites] *)
Definition handleShowFavorites (m : AppModel) : AppModel :=
  match user m with
  | None => setIsLoginModalOpen true m
  | Some _ => setAppState FAVORITES m
  end.

(** [handleBackToHome] *)
Definition handleBackToHome (m : AppModel) : AppModel := setAppState UPLOADING m.

(** [handleReset] *)
Definition handleReset (m : AppModel) : AppModel :=
  setImagePreview None (setError None (setCulinaryPlan None (setAppState UPLOADING m))).

(** *** Uploading *)

(** The services [handleImageUpload] awaits.  [generateAllRecipeVideos]
    resolves to the videos and the voiceover scripts of the storyboards it
    made, by recipe index, or rejects ([None]); [generateRecipeVoiceover]
    is the call made for recipe [i] with a script, resolving to a URL or
    rejecting ([None]). *)
Record VideoGeneration := mkVideos {
  generatedVideos : list (Z * list string);
  generatedStoryboards : list (Z * string);
  quotaExceeded : bool
}.

Record Services := mkServices {
  planFor : File -> GeneratedPlan + Thrown;
  generateAllRecipeVideos : list Recipe -> option VideoGeneration;
  generateRecipeVoiceover : nat -> string -> option string
}.

(** [recipe.steps.slice(0, 2).join(', then ')] *)
Definition stepsPreview (r : Recipe) : string :=
  String.concat ", then " (firstn 2 (steps r)).

(** The [voiceover_script] of a placeholder storyboard. *)
Definition placeholderScript (r : Recipe) : string :=
  ("Let's make " ++ title r ++ "! This " ++ difficulty r ++ " " ++ time_minutes r
   ++ "-minute recipe is so easy. " ++ stepsPreview r ++ ". Ready in just "
   ++ time_minutes r ++ " minutes - let's cook!")%string.

(** The loop [for (let i = 0; i < plan.recipes.length; i++)] that fills
    [recipeVoiceovers]: recipe [i] gets an entry when it has a storyboard
    with a non-empty script and the voiceover call resolves; a rejected
    call is caught and the loop goes on. *)
Fixpoint voiceoverLoop (sv : Services) (storyboardFor : nat -> option string)
    (i count : nat) : list (Z * string) :=
  match count with
  | O => []
  | S k =>
      let rest := voiceoverLoop sv storyboardFor (S i) k in
      match storyboardFor i with
      | Some script =>
          if truthy (Some script)
          then match generateRecipeVoiceover sv i script with
               | Some voiceoverUrl => (Z.of_nat i, voiceoverUrl) :: rest
               | None => rest
               end
          else rest
      | None => rest
      end
  end.

(** [placeholderStoryboards[i]] *)
Definition placeholderStoryboard (g : GeneratedPlan) (i : nat) : option string :=
  option_map placeholderScript (nth_error (genRecipes g) i).

(** [recipeStoryboards[i] || (i === 0 ? plan.storyboard : undefined)] *)
Definition generatedStoryboard (g : GeneratedPlan) (v : VideoGeneration) (i : nat)
    : option string :=
  match lookupKey (Z.of_nat i) (generatedStoryboards v) with
  | Some script => Some script
  | None => if Nat.eqb i 0 then Some (genStoryboard g) else None
  end.

(** [i === 0 ? plan.storyboard : undefined] *)
Definition firstStoryboard (g : GeneratedPlan) (i : nat) : option string :=
  if Nat.eqb i 0 then Some (genStoryboard g) else None.

(** [{ ...plan, videoUrls, recipeVideos, recipeStoryboards, recipeVoiceovers }],
    as the cards read it. *)
Definition updatedPlan (g : GeneratedPlan) (videoUrls : list string)
    (videos : list (Z * list string)) (voiceovers : list (Z * string)) : CulinaryPlan :=
  mkPlan (genIngredients g) (map title (genRecipes g))
    (Some videoUrls) (Some videos) (Some voiceovers).

(** The plan as [generateCulinaryPlan] returned it. *)
Definition receivedPlan (g : GeneratedPlan) : CulinaryPlan :=
  mkPlan (genIngredients g) (map title (genRecipes g)) None None None.

(** [err instanceof Error ? err.message : 'An unknown error occurred. ...'] *)
Definition shownMessage (t : Thrown) : string :=
  match t with
  | ErrorObject message => message
  | OtherValue => "An unknown error occurred. Please try again."
  end.

(** [handleImageUpload], run to completion. *)
Definition handleImageUpload (sv : Services) (f : File) (testMode : bool)
    (m : AppModel) : AppModel :=
  let m := setImagePreview (Some f) (setAppState GENERATING m) in
  match planFor sv f with
  | inr err => setAppState ERROR (setError (Some (shownMessage err)) m)
  | inl plan =>
      let m := setCulinaryPlan (Some (receivedPlan plan)) m in
      let count := List.length (genRecipes plan) in
      if testMode then
        let recipeVoiceovers := voiceoverLoop sv (placeholderStoryboard plan) 0 count in
        setAppState DISPLAYING_RECIPES
          (setCulinaryPlan (Some (updatedPlan plan [] [] recipeVoiceovers)) m)
      else
        let m := setAppState GENERATING_VIDEOS m in
        let m :=
          match generateAllRecipeVideos sv (genRecipes plan) with
          | Some v =>
              let recipeVoiceovers :=
                voiceoverLoop sv (generatedStoryboard plan v) 0 count in
              setCulinaryPlan
                (Some (updatedPlan plan
                         (match lookupKey 0 (generatedVideos v) with
                          | Some urls => urls
                          | None => []
                          end)
                         (generatedVideos v) recipeVoiceovers)) m
          | None =>
              let recipeVoiceovers := voiceoverLoop sv (firstStoryboard plan) 0 count in
              setCulinaryPlan (Some (updatedPlan plan [] [] recipeVoiceovers)) m
          end in
        setAppState DISPLAYING_RECIPES m
  end.

(** [handleTestMode] *)
Definition handleTestMode (sv : Services) (f : File) (m : AppModel) : AppModel :=
  handleImageUpload sv f true m.

(** *** Events and screens *)

Inductive AppEvent :=
| OpenLoginModal
    (** the window event [openLoginModal], or a [Sign In] button *)
| CloseLoginModal
| Login (loggedInUser : option string) (count : nat)
| Logout
| FavoriteChange (count : nat)
| ShowFavorites
| BackToHome
| Reset
| Upload (sv : Services) (f : File) (testMode : bool).

Definition appStep (m : AppModel) (e : AppEvent) : AppModel :=
  match e with
  | OpenLoginModal => setIsLoginModalOpen true m
  | CloseLoginModal => setIsLoginModalOpen false m
  | Login u count => handleLogin u count m
  | Logout => handleLogout m
  | FavoriteChange count => handleFavoriteChange count m
  | ShowFavorites => handleShowFavorites m
  | BackToHome => handleBackToHome m
  | Reset => handleReset m
  | Upload sv f testMode => handleImageUpload sv f testMode m
  end.

(** The application after its mount effect and a sequence of events. *)
Definition appRun (currentUser : option string) (count : nat) (evs : list AppEvent)
    : AppModel :=
  fold_left appStep evs (mountEffect currentUser count initialApp).

(** [LoginModal] hands [onLogin] a user. *)
Definition carriesUser (e : AppEvent) : bool :=
  match e with
  | Login None _ => false
  | _ => true
  end.

(** The branch [renderContent] takes. *)
Inductive Screen :=
| UploadScreen
| FavoritesScreen
| AnalyzingScreen
| VideoProgressScreen
| LoadingRecipesScreen
| NoRecipesScreen
| RecipesScreen (cards : list CardAttrs)
| ErrorScreen (message : option string).

Definition renderContent (m : AppModel) : Screen :=
  match appState m with
  | UPLOADING => UploadScreen
  | FAVORITES => FavoritesScreen
  | GENERATING => AnalyzingScreen
  | GENERATING_VIDEOS => VideoProgressScreen
  | DISPLAYING_RECIPES =>
      match culinaryPlan m with
      | None => LoadingRecipesScreen
      | Some plan =>
          match recipes plan with
          | [] => NoRecipesScreen
          | _ :: _ => RecipesScreen (recipeScroller plan)
          end
      end
  | ERROR => ErrorScreen (error m)
  end.

End AppShell.

(** ** What an upload leaves for the cards *)

Module UploadFacts.
Import Card Hosts Uploader Gemini AppShell.

(** The entry the voiceover loop makes for recipe [j]. *)
Definition voiceoverFor (sv : Services) (storyboardFor : nat -> option string) (j : nat)
    : option string :=
  match storyboardFor j with
  | Some script =>
      if truthy (Some script) then generateRecipeVoiceover sv j script else None
  | None => None
  end.

(** [culinaryPlan.recipeVoiceovers?.[i]] of the application's plan. *)
Definition planVoiceover (m : AppModel) (i : nat) : option string :=
  match culinaryPlan m with
  | Some plan =>
      match recipeVoiceovers plan with
      | Some o => lookupKey (Z.of_nat i) o
      | None => None
      end
  | None => None
  end.

(** The [videoUrls] the scroller would hand to the card of recipe [i]. *)
Definition planVideos (m : AppModel) (i : nat) : list string :=
  match culinaryPlan m with
  | Some plan => scrollerVideoUrls plan i
  | None => []
  end.

(** What the screens rely on. *)
Definition screenInvariant (m : AppModel) : Prop :=
  (appState m = FAVORITES -> user m <> None)
  /\ (user m = None -> favoriteCount m = 0%nat)
  /\ (appState m = DISPLAYING_RECIPES -> culinaryPlan m <> None)
  /\ (appState m = ERROR -> error m <> None)
  /\ appState m <> GENERATING /\ appState m <> GENERATING_VIDEOS.

(** The key [ensureApiKey] reads: [process.env.API_KEY] after the dialog
    when it was opened, as it was otherwise. *)
Definition keyRead (env : KeyEnvironment) : option string :=
  if aistudio env && negb (hasSelectedApiKey env)
  then envKeyAfterDialog env
  else envKey env.

End UploadFacts.

(** ** An upload of a photo of leeks *)

Module UploadScenarios.
Import Card Hosts Uploader Gemini AppShell.
Local Open Scope string_scope.

Definition leekFile : File := mkFile "leeks.jpg" "image/jpeg".

Definition leekRecipes : list Recipe :=
  [ mkRecipe "Leek Soup" "20" "easy" ["Chop the leeks"; "Simmer"; "Blend"];
    mkRecipe "Leek Tart" "25" "easy" ["Roll the dough"; "Bake"] ].

Definition leekPlan : GeneratedPlan :=
  mkGenerated ["leek"%string] leekRecipes "Today we cook leek soup.".

(** No AI Studio and no configured key. *)
Definition noKey : KeyEnvironment := mkKeyEnv false false None None.

(** AI Studio with a selected key. *)
Definition studioKey : KeyEnvironment := mkKeyEnv true true (Some "key-1"%string) None.

Definition respondLeek (apiKey : string) : string + Thrown := inl "leek-plan"%string.

Definition parseLeek (jsonText : string) : option GeneratedPlan :=
  if String.eqb jsonText "leek-plan" then Some leekPlan else None.

(** Videos for the first recipe only, a storyboard for the second only;
    the voiceover call for the second recipe is rejected. *)
Definition leekVideos : VideoGeneration :=
  mkVideos [(0, ["https://cdn.example/soup.mp4"%string])]
           [(1, "Tart time."%string)] false.

Definition voiceLeek (i : nat) (script : string) : option string :=
  if Nat.eqb i 1 then None else Some "https://cdn.example/voice.mp3"%string.

Definition leekServices : Services :=
  mkServices (fun _ => generateCulinaryPlan studioKey respondLeek parseLeek)
             (fun _ => Some leekVideos) voiceLeek.

(** The same with a video service that rejects. *)
Definition noVideoServices : Services :=
  mkServices (fun _ => generateCulinaryPlan studioKey respondLeek parseLeek)
             (fun _ => None) voiceLeek.

(** The same without an API key. *)
Definition noKeyServices : Services :=
  mkServices (fun _ => generateCulinaryPlan noKey respondLeek parseLeek)
             (fun _ => Some leekVideos) voiceLeek.

(** A session: sign in, upload, look at the favorites, sign out. *)
Definition leekSession : list AppEvent :=
  [ OpenLoginModal; Login (Some "ada"%string) 2; Upload leekServices leekFile false;
    ShowFavorites; FavoriteChange 1; Logout ].

End UploadScenarios.

(** * Properties *)

(** ** Facts about number comparisons *)

Module JsNumFacts.
Import JsNum.

Lemma Qltb_lt (a b : Q) : Qltb a b = true <-> (a < b)%Q.
Proof.
  unfold Qltb. rewrite Qlt_alt.
  destruct (Qcompare a b); split; congruence.
Qed.

Lemma Qltb_ge (a b : Q) : Qltb a b = false <-> (b <= a)%Q.
Proof.
  split; intro H.
  - apply Qnot_lt_le. intro L. apply Qltb_lt in L. congruence.
  - destruct (Qltb a b) eqn:E; [|reflexivity].
    apply Qltb_lt in E. exfalso. exact (Qlt_not_le _ _ E H).
Qed.

End JsNumFacts.

(** ** The two estimators pick the first best candidate *)

Module TrackerFacts.
Import JsNum JsNumFacts Tracker TrackerSpec.

Lemma visitEntry_seen (seen : list Entry) (st : Q * Z) (e : Entry) :
  SeenEntries seen st -> SeenEntries (seen ++ [e]) (visitEntry st e).
Proof.
  intros [Hmax Hsel]. destruct st as [m i]. simpl in *.
  assert (Hm0 : (0 <= m)%Q).
  { destruct Hsel as [[_ ->] | (k & e0 & (_ & _ & Hpos & _) & _ & ->)].
    - apply Qle_refl.
    - now apply Qlt_le_weak. }
  unfold visitEntry. simpl.
  destruct ((0 <=? entryIndex e) && Qltb m (intersectionRatio e)) eqn:Hc.
  - apply andb_true_iff in Hc. destruct Hc as [Hi Hlt].
    apply Z.leb_le in Hi. apply Qltb_lt in Hlt.
    split; simpl.
    + intros e' Hin Hv. apply in_app_or in Hin. destruct Hin as [Hin | [<- | []]].
      * apply Qle_trans with m; [now apply Hmax | now apply Qlt_le_weak].
      * apply Qle_refl.
    + right. exists (List.length seen), e. split; [|split; reflexivity].
      repeat split.
      * rewrite nth_error_app2 by lia. now rewrite Nat.sub_diag.
      * exact Hi.
      * now apply Qle_lt_trans with m.
      * intros e' Hin Hv. apply in_app_or in Hin. destruct Hin as [Hin | [<- | []]].
        -- apply Qle_trans with m; [now apply Hmax | now apply Qlt_le_weak].
        -- apply Qle_refl.
      * intros k' e' Hk Hnth Hv. rewrite nth_error_app1 in Hnth by exact Hk.
        apply Qle_lt_trans with m; [|exact Hlt].
        apply Hmax; [|exact Hv]. eapply nth_error_In; eassumption.
  - assert (He : 0 <= entryIndex e -> (intersectionRatio e <= m)%Q).
    { intro Hv. apply Z.leb_le in Hv. rewrite Hv in Hc. simpl in Hc.
      now apply Qltb_ge. }
    split; simpl.
    + intros e' Hin Hv. apply in_app_or in Hin. destruct Hin as [Hin | [<- | []]].
      * now apply Hmax.
      * now apply He.
    + destruct Hsel as [Hnone | (k & e0 & (Hk & Hi0 & Hpos & Hall & Hbefore) & Hidx & Hr)].
      * now left.
      * right. exists k, e0. split; [|split; assumption].
        assert (Hlen : (k < List.length seen)%nat).
        { apply nth_error_Some. congruence. }
        repeat split; try assumption.
        -- rewrite nth_error_app1 by exact Hlen. exact Hk.
        -- intros e' Hin Hv. apply in_app_or in Hin. destruct Hin as [Hin | [<- | []]].
           ++ now apply Hall.
           ++ rewrite <- Hr. now apply He.
        -- intros k' e' Hlt Hnth Hv. rewrite nth_error_app1 in Hnth by lia.
           now apply (Hbefore k' e').
Qed.

Lemma forEachEntry_seen (rest seen : list Entry) (st : Q * Z) :
  SeenEntries seen st -> SeenEntries (seen ++ rest) (forEachEntry rest st).
Proof.
  revert seen st. induction rest as [|e rest IH]; intros seen st H; simpl.
  - now rewrite app_nil_r.
  - replace (seen ++ e :: rest) with ((seen ++ [e]) ++ rest)
      by (rewrite <- app_assoc; reflexivity).
    apply IH. now apply visitEntry_seen.
Qed.

Lemma mostVisible_seen (entries : list Entry) :
  SeenEntries entries (mostVisible entries).
Proof.
  unfold mostVisible. apply (forEachEntry_seen entries []).
  split; simpl.
  - intros e [].
  - now left.
Qed.

Lemma nth_error_snoc {A : Type} (l : list A) (x y : A) (j : nat) :
  nth_error (l ++ [x]) j = Some y ->
  ((j < List.length l)%nat /\ nth_error l j = Some y) \/ (j = List.length l /\ x = y).
Proof.
  intro H. destruct (Nat.lt_ge_cases j (List.length l)) as [Hlt | Hge].
  - left. split; [exact Hlt|]. now rewrite nth_error_app1 in H.
  - right. rewrite nth_error_app2 in H by exact Hge.
    destruct (j - List.length l)%nat eqn:E.
    + simpl in H. split; [lia | congruence].
    + simpl in H. destruct n; discriminate.
Qed.

Lemma visitRef_seen (s : Scroller) (seen : list (option DOMRect))
    (st : Z * option Q) (ref : option DOMRect) :
  SeenRefs s seen st -> SeenRefs s (seen ++ [ref]) (visitRef s st (List.length seen) ref).
Proof.
  intro H. destruct st as [i d]. unfold visitRef.
  destruct ref as [rect|].
  - destruct H as [(Hi & Hd & Hnone) | (k & r0 & Hi & Hd & Hk & Hbest)]; simpl in *.
    + subst d. simpl. right. exists (List.length seen), rect. simpl.
      repeat split.
      * rewrite nth_error_app2 by lia. now rewrite Nat.sub_diag.
      * apply nth_error_snoc in H. destruct H as [[_ H] | [_ H]].
        -- now apply Hnone in H.
        -- injection H as <-. apply Qle_refl.
      * intro Hj. apply nth_error_snoc in H. destruct H as [[_ H] | [H _]].
        -- now apply Hnone in H.
        -- lia.
    + subst d. simpl.
      assert (Hlen : (k < List.length seen)%nat) by (apply nth_error_Some; congruence).
      destruct (Qltb (distanceFromCenter s rect) (distanceFromCenter s r0)) eqn:Hc.
      * apply Qltb_lt in Hc. right. exists (List.length seen), rect. simpl.
        repeat split.
        -- rewrite nth_error_app2 by lia. now rewrite Nat.sub_diag.
        -- apply nth_error_snoc in H. destruct H as [[_ H] | [_ H]].
           ++ apply Qle_trans with (distanceFromCenter s r0).
              ** now apply Qlt_le_weak.
              ** now apply (Hbest j r).
           ++ injection H as <-. apply Qle_refl.
        -- intro Hj. apply nth_error_snoc in H. destruct H as [[_ H] | [H _]].
           ++ apply Qlt_le_trans with (distanceFromCenter s r0); [exact Hc|].
              now apply (Hbest j r).
           ++ lia.
      * apply Qltb_ge in Hc. right. exists k, r0. simpl.
        repeat split; try assumption.
        -- now rewrite nth_error_app1 by exact Hlen.
        -- apply nth_error_snoc in H. destruct H as [[_ H] | [_ H]].
           ++ now apply (Hbest j r).
           ++ injection H as <-. exact Hc.
        -- intro Hj. apply nth_error_snoc in H. destruct H as [[_ H] | [H _]].
           ++ now apply (Hbest j r).
           ++ lia.
  - destruct H as [(Hi & Hd & Hnone) | (k & r0 & Hi & Hd & Hk & Hbest)]; simpl in *.
    + left. repeat split; try assumption.
      intros j r H. apply nth_error_snoc in H. destruct H as [[_ H] | [_ H]].
      * now apply Hnone in H.
      * discriminate.
    + right. exists k, r0.
      assert (Hlen : (k < List.length seen)%nat) by (apply nth_error_Some; congruence).
      repeat split; try assumption.
      * now rewrite nth_error_app1 by exact Hlen.
      * apply nth_error_snoc in H. destruct H as [[_ H] | [_ H]].
        -- now apply (Hbest j r).
        -- discriminate.
      * intro Hj. apply nth_error_snoc in H. destruct H as [[_ H] | [_ H]].
        -- now apply (Hbest j r).
        -- discriminate.
Qed.

Lemma forEachRef_seen (s : Scroller) (rest seen : list (option DOMRect))
    (st : Z * option Q) :
  SeenRefs s seen st ->
  SeenRefs s (seen ++ rest) (forEachRef s (List.length seen) rest st).
Proof.
  revert seen st. induction rest as [|r rest IH]; intros seen st H; simpl.
  - now rewrite app_nil_r.
  - replace (seen ++ r :: rest) with ((seen ++ [r]) ++ rest)
      by (rewrite <- app_assoc; reflexivity).
    replace (S (List.length seen)) with (List.length (seen ++ [r]))
      by (rewrite length_app; simpl; lia).
    apply IH. now apply visitRef_seen.
Qed.

Lemma closest_seen (s : Scroller) (refs : list (option DOMRect)) :
  SeenRefs s refs (closest s refs).
Proof.
  unfold closest. apply (forEachRef_seen s refs []).
  left. repeat split. intros [|j] r H; discriminate.
Qed.

End TrackerFacts.

(** ** Visibility selection and the published index *)

Section VisibilityTracker.
Import JsNum JsNumFacts Tracker TrackerSpec TrackerFacts.

Lemma publish_spec (proposed current i : Z) :
  publish proposed current = Some i
  <-> (i = proposed /\ 0 <= proposed /\ proposed <> current).
Proof.
  unfold publish.
  destruct (Z.leb_spec 0 proposed) as [Hp | Hp];
    destruct (Z.eqb_spec proposed current) as [He | He]; simpl;
    split; intro H; try discriminate; try (destruct H as (? & ? & ?); lia).
  - injection H as <-. repeat split; assumption.
  - destruct H as (-> & _ & _). reflexivity.
Qed.




Lemma step_nonneg (v : ListView) (ev : ViewEvent) :
  0 <= visibleIndex v -> 0 <= visibleIndex (step v ev).
Proof.
  intro H. destruct ev as [n | firstRef | entries | scroller refs | updated]; simpl.
  - exact H.
  - destruct (Nat.eqb (itemCount v) 0); [exact H|].
    destruct firstRef; simpl; [lia | exact H].
  - destruct (Nat.eqb (itemCount v) 0); [exact H|]. simpl.
    destruct (publish (mostVisibleIndex entries) (visibleIndex v)) as [i|] eqn:Hp; simpl.
    + apply publish_spec in Hp. lia.
    + exact H.
  - destruct scroller as [s|]; [|exact H].
    destruct (Nat.eqb (itemCount v) 0); [exact H|]. simpl.
    destruct (publish (closestIndex s refs) (visibleIndex v)) as [i|] eqn:Hp; simpl.
    + apply publish_spec in Hp. lia.
    + exact H.
  - destruct (Nat.eqb updated 0); simpl; [exact H|].
    destruct (Z.of_nat (itemCount v) - 1 <=? visibleIndex v); simpl; [lia | exact H].
Qed.

Lemma run_nonneg (evs : list ViewEvent) (v : ListView) :
  0 <= visibleIndex v -> 0 <= visibleIndex (run evs v).
Proof.
  revert v. induction evs as [|ev evs IH]; intros v H; simpl.
  - exact H.
  - apply IH. now apply step_nonneg.
Qed.

(** C6 (as the code has it).  The published index starts at 0, not at a
    sentinel, and no sequence of events ever makes it negative.  While the
    list is empty neither estimator nor the observer set-up changes it, and
    no card is rendered, so none is treated as active. *)
Theorem empty_list_active_index :
  visibleIndex initialView = 0
  /\ (forall evs, 0 <= visibleIndex (run evs initialView))
  /\ (forall index,
        (forall firstRef, step (mkView 0 index) (ObserverSetup firstRef) = mkView 0 index)
        /\ (forall entries, step (mkView 0 index) (IntersectionBatch entries) = mkView 0 index)
        /\ (forall scroller refs,
              step (mkView 0 index) (ScrollSample scroller refs) = mkView 0 index)
        /\ renderedVisibility (mkView 0 index) = []).
Proof.
  split; [reflexivity|]. split.
  - intro evs. apply run_nonneg. simpl. lia.
  - intro index. repeat split.
    intros [s|] refs; reflexivity.
Qed.

(** C6 as stated fails: before any measurement, with the list still empty,
    the published index is 0 and not [-1]. *)
Lemma empty_list_active_index_counterexample :
  itemCount initialView = 0%nat
  /\ visibleIndex initialView <> -1
  /\ visibleIndex (run [ObserverSetup false; ScrollSample None []] initialView) <> -1.
Proof.
  repeat split; simpl; lia.
Qed.

End VisibilityTracker.

(** ** The favorite button without a session *)

Section FavoriteButton.
Import Card Favorites.

Variable Store : Type.
Variable removeFavorite : string -> list string -> Store -> Store.
Variable addFavorite :
  string -> list string -> list string -> option string -> Store -> Store.

Let click := favoriteClick Store removeFavorite addFavorite.

(** C9.  Without an authenticated session the favorite button only opens
    the login prompt: the store, the card's [isFavorited] flag and the
    count of favorite-change notifications are what they were, and every
    other part of the card is untouched. *)
Theorem toggle_favorite_unauthenticated (s : Session Store) :
  store Store (click false s) = store Store s
  /\ isFavorited (card Store (click false s)) = isFavorited (card Store s)
  /\ favoriteChanges Store (click false s) = favoriteChanges Store s
  /\ showLoginPrompt (card Store (click false s)) = true
  /\ loginPrompt (render (props (card Store s)) (card Store (click false s))) = true
  /\ card Store (click false s) = setShowLoginPrompt true (card Store s).
Proof.
  unfold click, favoriteClick. simpl. repeat split.
Qed.

(** With a session the same click does reach the store, flips the flag
    and notifies the host. *)
Lemma toggle_favorite_authenticated (s : Session Store) (plan : CulinaryPlan) :
  culinaryPlan (props (card Store s)) = Some plan ->
  isFavorited (card Store (click true s)) = negb (isFavorited (card Store s))
  /\ favoriteChanges Store (click true s) = S (favoriteChanges Store s)
  /\ store Store (click true s)
     = if isFavorited (card Store s)
       then removeFavorite (recipeTitle (props (card Store s))) (ingredients plan)
              (store Store s)
       else addFavorite (recipeTitle (props (card Store s))) (ingredients plan)
              (videoUrls (props (card Store s))) (voiceoverUrl (props (card Store s)))
              (store Store s).
Proof.
  intro Hplan. unfold click, favoriteClick. simpl. rewrite Hplan.
  destruct (isFavorited (card Store s)); simpl; repeat split.
Qed.

End FavoriteButton.

(** ** Cards without media *)

Module MissingMedia.
Import JsNum Media Card Page Invariants.























End MissingMedia.

(** ** Cards that are never visible (the single-plan scroller) *)

Module NeverVisible.
Import JsNum Media Card Page Hosts Invariants.

Create HintDb quiet.

Lemma quiet_same (c c' : Card) :
  props c' = props c -> prevVisibleRef c' = prevVisibleRef c ->
  audioOnCanPlay c' = audioOnCanPlay c ->
  onceLoadedData c' = onceLoadedData c -> onceCanPlay c' = onceCanPlay c ->
  sync c' = sync c -> trace c' = trace c ->
  Quiet c -> Quiet c'.
Proof.
  intros E1 E2 E3 E4 E5 E6 E7. unfold Quiet.
  now rewrite E1, E2, E3, E4, E5, E6, E7.
Qed.

Lemma quiet_emit (a : Action) (c : Card) :
  silent a = true -> Quiet c -> Quiet (emit a c).
Proof.
  intros Ha (H1 & H2 & H3 & H4 & H5 & H6 & H7). unfold Quiet. cbn.
  rewrite forallb_app, H7. cbn. rewrite Ha. auto 10.
Qed.

Lemma quiet_setAudio (a : MediaElement) (c : Card) : Quiet c -> Quiet (setAudio a c).
Proof. apply quiet_same; reflexivity. Qed.

Lemma quiet_setVideo (v : MediaElement) (c : Card) : Quiet c -> Quiet (setVideo v c).
Proof. apply quiet_same; reflexivity. Qed.

Lemma quiet_setQueue (q : list MediaEv) (c : Card) : Quiet c -> Quiet (setQueue q c).
Proof. apply quiet_same; reflexivity. Qed.

Lemma quiet_setIsVoiceoverPlaying (b : bool) (c : Card) :
  Quiet c -> Quiet (setIsVoiceoverPlaying b c).
Proof. apply quiet_same; reflexivity. Qed.

Lemma quiet_setIsVoiceoverMuted (b : bool) (c : Card) :
  Quiet c -> Quiet (setIsVoiceoverMuted b c).
Proof. apply quiet_same; reflexivity. Qed.

Lemma quiet_attachRefs (p : Props) (c : Card) : Quiet c -> Quiet (attachRefs p c).
Proof. apply quiet_same; reflexivity. Qed.

#[local] Hint Resolve quiet_emit quiet_setAudio quiet_setVideo quiet_setQueue
  quiet_setIsVoiceoverPlaying quiet_setIsVoiceoverMuted quiet_attachRefs : quiet.
#[local] Hint Extern 1 (silent _ = true) => reflexivity : quiet.

Lemma quiet_audioSeek (t : Q) (c : Card) : Quiet c -> Quiet (audioSeek t c).
Proof. intro H. unfold audioSeek. destruct (audioRef c); auto with quiet. Qed.

Lemma quiet_audioPause (c : Card) : Quiet c -> Quiet (audioPause c).
Proof.
  intro H. unfold audioPause. destruct (audioRef c) as [a|]; [|exact H].
  destruct (pause a). auto with quiet.
Qed.

Lemma quiet_audioLoad (c : Card) : Quiet c -> Quiet (audioLoad c).
Proof. intro H. unfold audioLoad. destruct (audioRef c); auto with quiet. Qed.

#[local] Hint Resolve quiet_audioSeek quiet_audioPause quiet_audioLoad : quiet.

Lemma quiet_handleStopAudio (ev : StopEvent) (c : Card) :
  Quiet c -> Quiet (handleStopAudio ev c).
Proof.
  intro H. unfold handleStopAudio.
  destruct (negb (committed c)); [exact H|].
  destruct (negb (exceptIndex ev =? recipeIndex (props c))
            && negb (newVisibleIndex ev =? recipeIndex (props c))); [|exact H].
  destruct (audioRef c); auto 10 with quiet.
Qed.

Lemma quiet_videoLoadEffect (p : Props) (pf : Platform) (c : Card) :
  Quiet c -> Quiet (videoLoadEffect p pf c).
Proof.
  intro H. unfold videoLoadEffect.
  destruct (videoRef c) as [v|]; [|exact H].
  destruct (videoUrls p) as [|url rest]; [exact H|].
  destruct (negb (String.eqb (src v) url)); [|auto with quiet].
  destruct (play (allowVideo pf) (load (load (withSrc url v)))) as [[v2 evs] ok].
  destruct ok; auto 10 with quiet.
Qed.

Lemma quiet_voiceoverLoadEffect (p : Props) (c : Card) :
  isVisible p = false -> Quiet c -> Quiet (voiceoverLoadEffect p c).
Proof.
  intros Hp H. unfold voiceoverLoadEffect.
  destruct (audioRef c) as [a|]; [|exact H].
  destruct (negb (hasVoiceover p)); [exact H|].
  destruct (voiceoverUrl p) as [url|]; [|exact H].
  destruct (negb (String.eqb (src a) url)); [|auto with quiet].
  rewrite Hp.
  assert (H' : Quiet (emit AudioLoad
             (setAudio (load (withLoop true
                (withVolume (voiceoverVolume (isVoiceoverMuted c)) (load (withSrc url a))))) c)))
    by auto with quiet.
  destruct H' as (H1 & H2 & H3 & H4 & H5 & H6 & H7).
  unfold Quiet. cbn in *. auto 10.
Qed.

Lemma quiet_playPauseEffect (p : Props) (pf : Platform) (c : Card) :
  isVisible p = false -> Quiet c -> Quiet (playPauseEffect p pf c).
Proof.
  intros Hp H. unfold playPauseEffect.
  destruct (audioRef c) as [a|]; [|exact H].
  destruct (negb (hasVoiceover p)); [exact H|].
  assert (Hprev : prevVisibleRef c = false) by apply H.
  rewrite Hp, Hprev. cbn [negb andb].
  assert (Hset : forall c', Quiet c' -> Quiet (setPrevVisible false c')).
  { intros c' (H1 & H2 & H3 & H4 & H5 & H6 & H7). unfold Quiet. cbn. auto 10. }
  apply Hset. destruct (negb (paused a)); auto 10 with quiet.
Qed.

Lemma quiet_syncEffect (p : Props) (c : Card) :
  isVisible p = false -> Quiet c -> Quiet (syncEffect p c).
Proof.
  intros Hp (H1 & H2 & H3 & H4 & H5 & H6 & H7). unfold syncEffect.
  rewrite Hp, !andb_false_r.
  destruct (videoRef c), (audioRef c); unfold Quiet; cbn; auto 10.
Qed.

Lemma quiet_commit (p : Props) (pf : Platform) (c : Card) :
  isVisible p = false -> Quiet c -> Quiet (commit p pf c).
Proof.
  intros Hp H. unfold commit, commitAnnounce.
  pose proof (quiet_attachRefs p c H) as H0.
  generalize dependent (attachRefs p c). intros c0 H0.
  assert (E : (if visibilityDepsChanged p c0 then stopOthersEffect p c0 else (c0, None))
              = (c0, None)).
  { destruct (visibilityDepsChanged p c0); [|reflexivity].
    unfold stopOthersEffect. now rewrite Hp. }
  rewrite E. unfold commitRest. cbv zeta.
  pose proof (quiet_videoLoadEffect p pf c0 H0) as H1.
  generalize dependent (videoLoadEffect p pf c0). intros c1 H1.
  assert (Hfin : forall c', Quiet c' -> Quiet (setProps p c')).
  { intros c' (Q1 & Q2 & Q3 & Q4 & Q5 & Q6 & Q7). unfold Quiet. cbn. auto 10. }
  apply Hfin.
  destruct (voiceoverDepsChanged p c0), (playPauseDepsChanged p c0), (syncDepsChanged p c0);
    auto using quiet_voiceoverLoadEffect, quiet_playPauseEffect, quiet_syncEffect.
Qed.

Lemma quiet_unmounted (p : Props) : isVisible p = false -> Quiet (unmounted p).
Proof. intro Hp. unfold Quiet. cbn. auto 10. Qed.

Lemma quiet_react (c : Card) (e : Platform * CardEvent) :
  Unprompted e -> Quiet c -> Quiet (react c e).
Proof.
  intros He H. destruct e as [pf ev]. unfold Unprompted in He. simpl in He.
  pose proof H as (H1 & H2 & H3 & H4 & H5 & H6 & H7).
  destruct ev; unfold react; cbn [fst snd].
  - apply quiet_commit; [|exact H]. unfold destructure. cbn. now rewrite He.
  - now apply quiet_handleStopAudio.
  - unfold audioProgress. destruct (audioRef c); auto with quiet.
  - unfold videoProgress. destruct (videoRef c); auto with quiet.
  - unfold onAudioCanPlay.
    assert (Hr : Quiet (runOnCanPlay pf c)).
    { unfold runOnCanPlay. destruct (audioOnCanPlay c) as [[[|] muted]|];
        cbn in H3; try discriminate; cbn; auto with quiet. }
    destruct Hr as (R1 & R2 & R3 & R4 & R5 & R6 & R7).
    rewrite R5. cbn. unfold Quiet. cbn. auto 10.
  - unfold onAudioLoadedData. rewrite H4. cbn. unfold Quiet. cbn. auto 10.
  - unfold deliverAudioEvent. destruct (audioQueue c) as [|[] q]; cbn; auto with quiet.
  - unfold handleEnded. rewrite H1. cbn. now destruct (audioRef c).
  - unfold onVideoTimeUpdate, timerTick. rewrite H6.
    destruct (videoRef c) as [v|]; [|exact H].
    unfold handleVideoTimeUpdate. cbn. rewrite H6. auto with quiet.
  - unfold timerTick. now rewrite H6.
  - unfold handleVideoEnded. destruct (videoRef c) as [v|]; [|exact H].
    destruct (hasVideo (props c)); [|exact H].
    destruct (play (allowVideo pf) (seek 0 v)) as [[v' evs] ok].
    assert (Hq : Quiet (emit (VideoPlay ok) (emit (VideoSeek 0) (setVideo v' c))))
      by auto with quiet.
    cbv zeta.
    destruct (audioRef (emit (VideoPlay ok) (emit (VideoSeek 0) (setVideo v' c))));
      [|exact Hq].
    cbn [props emit setVideo]. rewrite H1, andb_false_r. exact Hq.
  - contradiction.
  - unfold toggleVoiceoverMute. destruct (audioRef c) as [a|]; [|exact H].
    apply quiet_commit; [exact H1 | auto with quiet].
Qed.

Lemma quiet_reactAll (es : list (Platform * CardEvent)) (c : Card) :
  Forall Unprompted es -> Quiet c -> Quiet (reactAll es c).
Proof.
  revert c. induction es as [|e es IH]; intros c Hes H; simpl; [exact H|].
  inversion Hes; subst. apply IH; [assumption|]. now apply quiet_react.
Qed.

Lemma In_mapi {A B : Type} (f : nat -> A -> B) (l : list A) (start : nat) (y : B) :
  In y (mapi f start l) -> exists i x, In x l /\ y = f i x.
Proof.
  revert start. induction l as [|x l IH]; intros start H; simpl in H; [contradiction|].
  destruct H as [<- | H].
  - exists start, x. split; [now left | reflexivity].
  - destruct (IH _ H) as (i & x' & Hin & ->). exists i, x'. split; [now right | reflexivity].
Qed.

Lemma videoLoadEffect_plays (p : Props) (pf : Platform) (c : Card)
    (v : MediaElement) (url : string) (rest : list string) :
  videoRef c = Some v -> videoUrls p = url :: rest -> src v <> url ->
  In (VideoPlay (allowVideo pf)) (trace (videoLoadEffect p pf c)).
Proof.
  intros Hv Hu Hne. unfold videoLoadEffect. rewrite Hv, Hu.
  destruct (String.eqb_spec (src v) url) as [Heq | _]; [contradiction|].
  cbn [negb]. unfold play.
  destruct (allowVideo pf); cbn; rewrite !in_app_iff; cbn; tauto.
Qed.

(** C10.  Every card written by [RecipeScroller] lacks the [isVisible]
    and [recipeIndex] attributes, so its props hold [isVisible = false]
    (and [recipeIndex = 0]).  From mount on, through any sequence of
    re-renders by the scroller, media events, timer ticks, announcements
    of other cards and mute clicks, [isVisible] stays false and the card
    neither dispatches an announcement nor asks its audio element to play.
    Its video, when it has one, is rendered muted with [autoPlay] and
    [loop], and the loading effect asks it to play. *)
Theorem scroller_cards_never_activate (plan : CulinaryPlan) :
  (forall a, In a (recipeScroller plan) ->
      attrIsVisible a = None /\ attrRecipeIndex a = None
      /\ isVisible (destructure a) = false /\ recipeIndex (destructure a) = 0)
  /\ (forall a pf es, In a (recipeScroller plan) -> Forall Unprompted es ->
        let c := reactAll es (mount (destructure a) pf) in
        isVisible (props c) = false
        /\ (forall ev, ~ In (Dispatch ev) (trace c))
        /\ (forall ok, ~ In (AudioPlay ok) (trace c)))
  /\ (forall a c, In a (recipeScroller plan) -> hasVideo (destructure a) = true ->
        background (render (destructure a) c) = VideoBackground true true true true)
  /\ (forall a pf c v url rest, In a (recipeScroller plan) ->
        videoRef c = Some v -> videoUrls (destructure a) = url :: rest -> src v <> url ->
        In (VideoPlay (allowVideo pf)) (trace (videoLoadEffect (destructure a) pf c))).
Proof.
  assert (Hattrs : forall a, In a (recipeScroller plan) ->
            attrIsVisible a = None /\ attrRecipeIndex a = None).
  { intros a Hin. unfold recipeScroller in Hin.
    apply In_mapi in Hin. destruct Hin as (i & title & _ & ->). now split. }
  split; [|split; [|split]].
  - intros a Hin. destruct (Hattrs a Hin) as [Hv Hi].
    unfold destructure. cbn. rewrite Hv, Hi. auto.
  - intros a pf es Hin Hes c.
    destruct (Hattrs a Hin) as [Hv _].
    assert (Hp : isVisible (destructure a) = false)
      by (unfold destructure; cbn; now rewrite Hv).
    assert (H : Quiet c).
    { apply quiet_reactAll; [exact Hes|].
      apply quiet_commit; [exact Hp|]. now apply quiet_unmounted. }
    destruct H as (H1 & _ & _ & _ & _ & _ & H7).
    split; [exact H1|].
    rewrite forallb_forall in H7.
    split; intros x Hx; apply H7 in Hx; discriminate.
  - intros a c _ Hv. unfold render. now rewrite Hv.
  - intros a pf c v url rest _. apply videoLoadEffect_plays.
Qed.

(** A plan of two recipes, the second with videos; its card in the
    scroller receives media events and another card's announcement. *)
Lemma scroller_cards_never_activate_witness :
  let plan := mkPlan ["leek"%string] ["Soup"%string; "Stew"%string] None
                (Some [(1, ["https://cdn.example/stew.mp4"%string])])
                (Some [(0, "https://cdn.example/soup.mp3"%string)]) in
  let c := reactAll [(mkPlatform true true, AudioProgress 4 (Some 8%Q) 0);
                     (mkPlatform true true, AudioCanPlay);
                     (mkPlatform true true, AudioLoadedData);
                     (mkPlatform true true, VideoEnded);
                     (mkPlatform true true, StopAnnounced (mkStop 3 3))]
             (mount (destructure (scrollerCard plan 1 "Stew")) (mkPlatform true true)) in
  isVisible (props c) = false
  /\ (forall ev, ~ In (Dispatch ev) (trace c))
  /\ (forall ok, ~ In (AudioPlay ok) (trace c)).
Proof.
  intros plan c.
  destruct (scroller_cards_never_activate plan) as (_ & H & _).
  apply (H (scrollerCard plan 1 "Stew") (mkPlatform true true)).
  - right. left. reflexivity.
  - repeat (constructor; [exact I|]). constructor.
Defined.

End NeverVisible.

(** ** Activation of a hidden card *)

Module Activation.
Import JsNum Media Card Page Scenarios.

Lemma settledHidden_Settled (c : Card) :
  settledHidden c = true -> exists a, Settled c a.
Proof.
  unfold settledHidden. rewrite !andb_true_iff.
  intros ((((((H1 & H2) & H3) & H4) & H5) & H6) & H7).
  apply negb_true_iff in H2, H3. apply Bool.eqb_prop in H7.
  unfold audioAttached in H5.
  destruct (audioRef c) as [a|] eqn:Ha; [|discriminate].
  destruct (voiceoverUrl (props c)) as [url|] eqn:Hu; [|discriminate].
  apply String.eqb_eq in H5. subst url.
  exists a. now constructor.
Qed.

Lemma attachRefs_settled (b : bool) (c : Card) (a : MediaElement) :
  Settled c a -> attachRefs (withVisible b (props c)) c = c.
Proof.
  intros [H1 H2 H3 H4 H5 H6 H7 H8]. unfold attachRefs, render.
  change (hasVoiceover (withVisible b (props c))) with (hasVoiceover (props c)).
  change (hasVideo (withVisible b (props c))) with (hasVideo (props c)).
  rewrite H4. unfold videoAttached in H7. unfold hasVideo.
  destruct c as [p cm pl mu cmu fav lg vr ar pv och ld cp sy q tr].
  cbn in *. subst ar.
  destruct vr as [v|], (videoUrls p) as [|u r]; try discriminate; reflexivity.
Qed.

Lemma visibilityDepsChanged_flip (p : Props) (c : Card) :
  isVisible p = negb (isVisible (props c)) -> visibilityDepsChanged p c = true.
Proof.
  intro H. unfold visibilityDepsChanged. rewrite H.
  destruct (isVisible (props c)); cbn; now rewrite ?orb_true_r.
Qed.

Lemma videoLoadEffect_attached (b : bool) (pf : Platform) (c : Card) :
  videoAttached c = true ->
  videoLoadEffect (withVisible b (props c)) pf c
  = if hasVideo (props c) then emit (Console LogLoadingVideo) c else c.
Proof.
  unfold videoAttached, videoLoadEffect, hasVideo. cbn [videoUrls withVisible].
  destruct (videoRef c) as [v|], (videoUrls (props c)) as [|u r];
    try discriminate; try reflexivity.
  intros ->. reflexivity.
Qed.

Lemma voiceoverLoadEffect_attached (p : Props) (c : Card) (a : MediaElement) :
  audioRef c = Some a -> hasVoiceover p = true -> voiceoverUrl p = Some (src a) ->
  voiceoverLoadEffect p c
  = setAudio (withVolume (voiceoverVolume (isVoiceoverMuted c)) a) c.
Proof.
  intros Ha Hv Hu. unfold voiceoverLoadEffect. rewrite Ha, Hv, Hu. cbn [negb].
  now rewrite String.eqb_refl.
Qed.

Lemma playPauseEffect_activation (p : Props) (pf : Platform) (c : Card) (a : MediaElement) :
  audioRef c = Some a -> hasVoiceover p = true -> isVisible p = true ->
  prevVisibleRef c = false ->
  playPauseEffect p pf c
  = setPrevVisible true
      (if isVoiceoverMuted c then c else startBranch pf (readyState a) c).
Proof.
  intros Ha Hv Hp Hprev. unfold playPauseEffect, startBranch.
  rewrite Ha, Hv, Hp, Hprev. cbn [negb andb].
  now destruct (isVoiceoverMuted c).
Qed.

Lemma activate_unfold (pf : Platform) (c : Card) (a : MediaElement) :
  Settled c a ->
  activate pf c
  = let p := withVisible true (props c) in
    let c1 := emit (Dispatch (ownAnnouncement c)) c in
    let c2 := if hasVideo (props c) then emit (Console LogLoadingVideo) c1 else c1 in
    let c3 := setAudio (withVolume (voiceoverVolume (isVoiceoverMuted c)) a) c2 in
    let c4 := setPrevVisible true
                (if isVoiceoverMuted c then c3
                 else startBranch pf (readyState a) c3) in
    setProps p (syncEffect p c4).
Proof.
  intro HS. pose proof HS as [H1 H2 H3 H4 H5 H6 H7 H8].
  unfold activate, commit, commitAnnounce.
  rewrite (attachRefs_settled true c a HS).
  rewrite visibilityDepsChanged_flip by (now rewrite H2).
  unfold stopOthersEffect. cbn [isVisible withVisible]. rewrite H3. cbn [negb andb].
  change (mkStop (recipeIndex (withVisible true (props c)))
                 (recipeIndex (withVisible true (props c))))
    with (ownAnnouncement c).
  set (c1 := emit (Dispatch (ownAnnouncement c)) c).
  assert (E : handleStopAudio (ownAnnouncement c) c1 = c1).
  { unfold handleStopAudio, c1. cbn. rewrite H1, Z.eqb_refl. reflexivity. }
  rewrite E. unfold commitRest.
  assert (Hd : visibilityDepsChanged (withVisible true (props c)) c1 = true).
  { apply visibilityDepsChanged_flip. unfold c1. cbn. now rewrite H2. }
  unfold playPauseDepsChanged, voiceoverDepsChanged, syncDepsChanged.
  rewrite Hd. cbn [orb].
  replace (negb (committed c1)
           || negb (Bool.eqb (hasVideo (withVisible true (props c))) (hasVideo (props c1)))
           || negb (Bool.eqb (hasVoiceover (withVisible true (props c)))
                      (hasVoiceover (props c1)))
           || negb (Bool.eqb (isVisible (withVisible true (props c))) (isVisible (props c1)))
           || negb (Bool.eqb (isVoiceoverMuted c1) (committedMuted c1)))
    with true
    by (unfold c1; cbn; rewrite H2; cbn; now rewrite !orb_true_r).
  cbv zeta.
  assert (Hv1 : videoAttached c1 = true) by exact H7.
  change (videoLoadEffect (withVisible true (props c)) pf c1)
    with (videoLoadEffect (withVisible true (props c1)) pf c1).
  rewrite (videoLoadEffect_attached true pf c1 Hv1).
  change (hasVideo (props c1)) with (hasVideo (props c)).
  set (c2 := if hasVideo (props c) then emit (Console LogLoadingVideo) c1 else c1).
  assert (Ha2 : audioRef c2 = Some a)
    by (unfold c2, c1; destruct (hasVideo (props c)); exact H5).
  assert (Hm2 : isVoiceoverMuted c2 = isVoiceoverMuted c)
    by (unfold c2, c1; destruct (hasVideo (props c)); reflexivity).
  assert (Hp2 : prevVisibleRef c2 = false)
    by (unfold c2, c1; destruct (hasVideo (props c)); exact H3).
  rewrite (voiceoverLoadEffect_attached (withVisible true (props c)) c2 a Ha2 H4 H6), Hm2.
  set (c3 := setAudio (withVolume (voiceoverVolume (isVoiceoverMuted c)) a) c2).
  rewrite (playPauseEffect_activation (withVisible true (props c)) pf c3
             (withVolume (voiceoverVolume (isVoiceoverMuted c)) a));
    [|reflexivity | exact H4 | reflexivity | exact Hp2].
  change (isVoiceoverMuted c3) with (isVoiceoverMuted c2). rewrite Hm2.
  reflexivity.
Qed.

Lemma syncEffect_frame (p : Props) (c : Card) :
  exists s, syncEffect p c = setSync s c.
Proof.
  unfold syncEffect.
  destruct (videoRef c), (audioRef c), (hasVideo p && hasVoiceover p && isVisible p);
    eexists; reflexivity.
Qed.

Ltac run_start :=
  match goal with
  | |- context [syncEffect ?p ?x] =>
      let s := fresh "s" in
      let E := fresh "E" in
      destruct (syncEffect_frame p x) as [s E]; rewrite E; clear E
  end;
  unfold startBranch, attemptPlay, audioSeek, audioPlay, audioLoad, play.

Lemma attemptPlay_trace (pf : Platform) (c : Card) (a : MediaElement) :
  audioRef c = Some a ->
  audioTime (attemptPlay pf c) = Some 0%Q
  /\ trace (attemptPlay pf c) = trace c ++ attemptTrace pf.
Proof.
  intro Ha. unfold attemptPlay, audioSeek, audioPlay, attemptTrace, audioTime, play.
  rewrite Ha. cbn. destruct (allowAudio pf); cbn;
    (split; [reflexivity|]); rewrite <- ?app_assoc; reflexivity.
Qed.

(** C2 (as the code has it).  Activating a hidden card with a voiceover
    leaves the video element exactly as it was.  When the voiceover is not
    muted, the audio position is 0 afterwards and the only play request of
    the activation comes after a rewind to 0; when the audio is not yet
    ready the start is left to [attemptPlay], which rewinds to 0 before
    every play request.  When the voiceover is muted, activation neither
    rewinds nor plays. *)
Theorem activation_restarts_audio_from_zero (pf : Platform) (c : Card) :
  settledHidden c = true ->
  videoRef (activate pf c) = videoRef c
  /\ (exists a, audioRef c = Some a
      /\ (isVoiceoverMuted c = false ->
            audioTime (activate pf c) = Some 0%Q
            /\ trace (activate pf c)
               = trace c ++ Dispatch (ownAnnouncement c) :: videoLog c
                   ++ Console LogStartingAudio :: AudioSeek 0
                   :: startTrace pf (readyState a))
      /\ (isVoiceoverMuted c = true ->
            audioTime (activate pf c) = Some (currentTime a)
            /\ audioPaused (activate pf c) = Some (paused a)
            /\ trace (activate pf c)
               = trace c ++ Dispatch (ownAnnouncement c) :: videoLog c))
  /\ (forall c0 a0, audioRef c0 = Some a0 ->
        audioTime (attemptPlay pf c0) = Some 0%Q
        /\ trace (attemptPlay pf c0) = trace c0 ++ attemptTrace pf).
Proof.
  intro Hs. destruct (settledHidden_Settled c Hs) as [a HS].
  rewrite (activate_unfold pf c a HS). cbv zeta.
  pose proof HS as [H1 H2 H3 H4 H5 H6 H7 H8].
  unfold videoLog, startTrace, attemptTrace, audioTime, audioPaused, startBranch.
  split; [|split].
  - run_start.
    destruct (hasVideo (props c)), (isVoiceoverMuted c),
      (2 <=? readyState a)%nat, (readyState a =? 0)%nat, (allowAudio pf);
      reflexivity.
  - exists a. split; [exact H5|]. split; intro Hm; rewrite Hm; run_start.
    + destruct (hasVideo (props c)),
        (2 <=? readyState a)%nat, (readyState a =? 0)%nat, (allowAudio pf);
        cbn; (split; [reflexivity|]); rewrite <- ?app_assoc; reflexivity.
    + destruct (hasVideo (props c));
        cbn; rewrite ?H5; cbn;
        (split; [reflexivity|]); (split; [reflexivity|]); rewrite <- ?app_assoc; reflexivity.
  - intros c0 a0. apply attemptPlay_trace.
Qed.

Lemma activation_restarts_audio_from_zero_witness :
  settledHidden hiddenSoup = true
  /\ videoRef (activate allowing hiddenSoup) = videoRef hiddenSoup
  /\ audioTime (activate allowing hiddenSoup) = Some 0%Q.
Proof.
  split; [reflexivity|].
  destruct (activation_restarts_audio_from_zero allowing hiddenSoup eq_refl)
    as (Hv & (a & Ha & Hun & _) & _).
  split; [exact Hv|]. now apply Hun.
Defined.

(** C2 as stated fails for the video: activation leaves the video of the
    card above at 3.5 s instead of resetting it to 0. *)
Lemma activation_restart_counterexample :
  settledHidden hiddenSoup = true
  /\ hasVoiceover (props hiddenSoup) = true
  /\ isVisible (props hiddenSoup) = false
  /\ isVisible (props (activate allowing hiddenSoup)) = true
  /\ videoTime hiddenSoup = Some (7 # 2)%Q
  /\ videoTime (activate allowing hiddenSoup) = Some (7 # 2)%Q
  /\ ~ (7 # 2 == 0)%Q.
Proof.
  repeat split; try reflexivity. intro H. discriminate H.
Qed.



End Activation.

(** ** Audio/video synchronisation of a visible card *)

Module Synchronizer.
Import JsNum JsNumFacts Media Card Page Scenarios Activation.

Lemma timerTick_frame (now : Z) (c : Card) (s : SyncClosure) (a : MediaElement) :
  sync c = Some s -> audioRef c = Some a ->
  exists a' s',
    audioRef (timerTick now c) = Some a'
    /\ paused a' = paused a
    /\ sync (timerTick now c) = Some s'
    /\ lastVideoTime s' = lastVideoTime s
    /\ videoRef (timerTick now c) = videoRef c
    /\ committedMuted (timerTick now c) = committedMuted c.
Proof.
  intros Hs Ha. unfold timerTick. rewrite Hs.
  destruct (syncTimeout s) as [[deadline captured]|];
    [|exists a, s; repeat split; assumption].
  destruct (deadline <=? now); [|exists a, s; repeat split; assumption].
  unfold syncCheck. cbn [videoRef audioRef setSync]. rewrite Ha.
  destruct (videoRef c) as [v|] eqn:Hv;
    [|eexists; eexists; cbn; rewrite ?Ha, ?Hv; repeat split; reflexivity].
  destruct (negb (paused a) && negb (paused v));
    [|eexists; eexists; cbn; rewrite ?Ha, ?Hv; repeat split; reflexivity].
  destruct (absDiffGt (currentTime a) (jsmod captured (duration a)) 1);
    [|eexists; eexists; cbn; rewrite ?Ha, ?Hv; repeat split; reflexivity].
  destruct (jsmod captured (duration a));
    [|eexists; eexists; cbn; rewrite ?Ha, ?Hv; repeat split; reflexivity].
  unfold audioSeek. cbn [audioRef setSync]. rewrite Ha.
  eexists; eexists; cbn; rewrite ?Hv; repeat split; reflexivity.
Qed.



Lemma handleVideoTimeUpdate_records (now : Z) (pf : Platform) (c : Card)
    (s : SyncClosure) (v a : MediaElement) :
  sync c = Some s -> videoRef c = Some v -> audioRef c = Some a ->
  sync (handleVideoTimeUpdate now pf c)
  = Some (mkSync (currentTime v) (Some (now + 2000, currentTime v)))
  /\ videoRef (handleVideoTimeUpdate now pf c) = Some v
  /\ committedMuted (handleVideoTimeUpdate now pf c) = committedMuted c
  /\ exists a', audioRef (handleVideoTimeUpdate now pf c) = Some a'.
Proof.
  intros Hs Hv Ha. unfold handleVideoTimeUpdate. rewrite Hs, Hv, Ha.
  destruct (loopDetected (duration v) (lastVideoTime s) (currentTime v));
    [|cbn; repeat split; try assumption; now exists a].
  destruct (negb (committedMuted c));
    [|cbn; repeat split; try assumption; now exists a].
  unfold audioPlayCatch, audioPlay, audioSeek, play. rewrite Ha. cbn.
  destruct (paused a), (allowAudio pf); cbn;
    repeat split; try assumption; eexists; reflexivity.
Qed.

(** Every [timeupdate] re-arms the sync timer 2000 ms ahead, so the check
    cannot run before 2000 ms have passed without a [timeupdate]. *)
Lemma sync_timer_rearmed (now now' : Z) (t : Q) (pf : Platform) (c : Card)
    (s : SyncClosure) (v a : MediaElement) :
  sync c = Some s -> videoRef c = Some v -> audioRef c = Some a ->
  now' < now + 2000 ->
  timerTick now' (onVideoTimeUpdate now t pf c) = onVideoTimeUpdate now t pf c.
Proof.
  intros Hs Hv Ha Hlt.
  destruct (timerTick_frame now c s a Hs Ha) as (a' & s' & Ha' & _ & Hs' & _ & Hv' & _).
  unfold onVideoTimeUpdate. rewrite Hv', Hv.
  set (c1 := setVideo (seek t v) (timerTick now c)).
  destruct (handleVideoTimeUpdate_records now pf c1 s' (seek t v) a' Hs' eq_refl Ha')
    as (Hrec & _).
  unfold timerTick at 1. rewrite Hrec. cbn.
  destruct (Z.leb_spec (now + 2000) now'); [lia | reflexivity].
Qed.




(** C4 at the failing input.  The video of [playingSoup] plays for four
    seconds and reports its position every 250 ms while the audio runs
    2.9 s ahead.  After each of the 17 reports both elements are playing
    and the check's own condition (more than 1 s apart) holds, yet no
    check has run: the card never seeks its audio, and the only timer
    pending at the end is the one armed by the last report (deadline
    6000 ms).  It fires only if the reports stop, and then seeks to the
    position captured two seconds earlier. *)
Theorem sync_check_never_runs_while_playing :
  forallb (fun k => bothPlaying (driftedAfter k) && outOfSync (driftedAfter k))
    (seq 1 17) = true
  /\ countSeeks (trace (driftedAfter 17)) = countSeeks (trace playingSoup)
  /\ trace (driftedAfter 17) = trace playingSoup
  /\ timeIs (audioTime (driftedAfter 17)) (79 # 10) = true
  /\ timeIs (videoTime (driftedAfter 17)) 5 = true
  /\ option_map syncTimeout (sync (driftedAfter 17)) = Some (Some (6000, (20 # 4)%Q))
  /\ timerTick 5999 (driftedAfter 17) = driftedAfter 17
  /\ timeIs (audioTime (timerTick 6000 (driftedAfter 17))) 5 = true.
Proof.
  repeat apply conj; vm_compute; reflexivity.
Qed.

End Synchronizer.

(** ** The stop announcement among mounted cards *)

Module Arbiter.
Import JsNum Media Card Page Hosts Scenarios Activation.

(** Every card of the favorites feed is written with [recipeIndex = 0]. *)
Lemma favoritesView_recipeIndex (favorites : list FavoriteRecipe) (visible : Z)
    (a : CardAttrs) :
  In a (favoritesView favorites visible) -> recipeIndex (destructure a) = 0.
Proof.
  unfold favoritesView. generalize 0%nat.
  induction favorites as [|f favorites IH]; intros start H; simpl in H; [contradiction|].
  destruct H as [<- | H]; [reflexivity | exact (IH _ H)].
Qed.

(** Hence no card of the favorites feed reacts to the announcement of
    another card of that feed. *)
Lemma favorites_announcement_ignored (favorites : list FavoriteRecipe)
    (visible visible' : Z) (announcer listener : CardAttrs) (c : Card) :
  In announcer (favoritesView favorites visible') ->
  In listener (favoritesView favorites visible) ->
  props c = destructure listener ->
  handleStopAudio (mkStop (recipeIndex (destructure announcer))
                          (recipeIndex (destructure announcer))) c
  = c.
Proof.
  intros Ha Hl Hp. unfold handleStopAudio.
  rewrite Hp, (favoritesView_recipeIndex _ _ _ Ha), (favoritesView_recipeIndex _ _ _ Hl).
  cbn. now destruct (negb (committed c)).
Qed.

(** A card with an audio element whose index differs from the announced
    one does stop: paused, rewound, flag cleared. *)
Lemma handleStopAudio_other_index (ev : StopEvent) (c : Card) (a : MediaElement) :
  committed c = true -> audioRef c = Some a ->
  exceptIndex ev <> recipeIndex (props c) ->
  newVisibleIndex ev <> recipeIndex (props c) ->
  audible (handleStopAudio ev c) = (false, Some true, Some 0%Q).
Proof.
  intros Hc Ha H1 H2. unfold handleStopAudio, audible, audioPaused, audioTime.
  rewrite Hc. apply Z.eqb_neq in H1, H2. rewrite H1, H2, Ha. cbn.
  unfold audioPause, audioSeek, pause. rewrite Ha.
  destruct (paused a) eqn:Hp; cbn; rewrite ?Hp; reflexivity.
Qed.


End Arbiter.


(** ** More on the visibility tracker *)

Module TrackerMore.
Import JsNum JsNumFacts Tracker TrackerSpec TrackerFacts TrackerEffects.

(** X1.  The scroll estimator proposes [-1] or the position of a registered
    card: its proposal lies in [-1, length refs), it is [-1] exactly when no
    card is registered, and otherwise the card at that position is
    registered.  The intersection estimator proposes [-1] or the index
    attribute of an entry of the batch. *)
Theorem estimator_proposals_in_range :
  (forall s refs,
      -1 <= closestIndex s refs < Z.of_nat (List.length refs)
      /\ (closestIndex s refs = -1 <-> forall j r, nth_error refs j <> Some (Some r))
      /\ (0 <= closestIndex s refs ->
          exists r, nth_error refs (Z.to_nat (closestIndex s refs)) = Some (Some r)))
  /\ (forall entries,
        mostVisibleIndex entries = -1
        \/ (0 <= mostVisibleIndex entries
            /\ exists e, In e entries /\ dataIndex e = Some (mostVisibleIndex entries))).
Proof.
  split.
  - intros s refs. pose proof (closest_seen s refs) as H. unfold closestIndex.
    destruct H as [(Hi & _ & Hnone) | (k & rect & Hi & _ & Hk & _)].
    + rewrite Hi. split; [lia|]. split.
      * split; [intros _; exact Hnone | reflexivity].
      * intro Hneg. lia.
    + assert (Hlen : (k < List.length refs)%nat) by (apply nth_error_Some; congruence).
      rewrite Hi. split; [lia|]. split.
      * split; [lia|]. intro Hnone. exfalso. exact (Hnone k rect Hk).
      * intros _. exists rect. now rewrite Nat2Z.id.
  - intro entries. pose proof (mostVisible_seen entries) as [_ Hsel].
    unfold mostVisibleIndex.
    destruct Hsel as [[Hi _] | (k & e & (Hk & Hv & _) & Hi & _)]; [now left|].
    right. rewrite Hi. split; [exact Hv|]. exists e.
    split; [eapply nth_error_In; eassumption|].
    unfold entryIndex in *. destruct (dataIndex e); [reflexivity | lia].
Qed.

(** X2.  Removing one favorite keeps an in-range published index in range:
    with [n] favorites and the index on an existing card, after a removal
    that leaves [n - 1 > 0] favorites the index is again the position of an
    existing card (the same position, or the new last one when the last
    card was shown). *)
Theorem remove_favorite_keeps_index_in_range (n : nat) (index : Z) :
  0 <= index < Z.of_nat n -> (2 <= n)%nat ->
  let v' := step (mkView n index) (RemoveFavorite (n - 1)) in
  itemCount v' = (n - 1)%nat
  /\ 0 <= visibleIndex v' < Z.of_nat (n - 1)
  /\ (index < Z.of_nat n - 1 -> visibleIndex v' = index)
  /\ (index = Z.of_nat n - 1 -> visibleIndex v' = Z.of_nat n - 2).
Proof.
  intros Hi Hn. unfold step. cbn [itemCount visibleIndex].
  destruct (Nat.eqb_spec (n - 1) 0) as [E | E]; [lia|].
  destruct (Z.leb_spec (Z.of_nat n - 1) index) as [L | L]; cbn; repeat split; lia.
Qed.

Lemma remove_favorite_keeps_index_in_range_witness :
  visibleIndex (step (mkView 3 2) (RemoveFavorite 2)) = 1
  /\ 0 <= visibleIndex (step (mkView 3 0) (RemoveFavorite (3 - 1))) < Z.of_nat (3 - 1).
Proof.
  split.
  - destruct (remove_favorite_keeps_index_in_range 3 2) as (_ & _ & _ & H); [lia | lia |].
    apply H. reflexivity.
  - destruct (remove_favorite_keeps_index_in_range 3 0) as (_ & H & _); [lia | lia |].
    exact H.
Defined.

(** X3.  Re-running the tracker effects after a render, with the first
    card mounted, leaves the published index as it is only when that index
    is 0 and no other card is proposed by the scroll sample.  With card
    [k > 0] nearest the centre, a render at index [k] is followed by index 0
    and a render at index 0 by index [k]: the index does not settle. *)
Theorem tracker_effects_settle_only_on_first_card (n : nat) (s : Scroller)
    (refs : list (option DOMRect)) (index : Z) :
  n <> 0%nat ->
  (rerunEffects true (Some s) refs (mkView n index) = mkView n index
   <-> index = 0 /\ closestIndex s refs <= 0)
  /\ (0 < closestIndex s refs ->
      rerunEffects true (Some s) refs (mkView n (closestIndex s refs)) = mkView n 0
      /\ rerunEffects true (Some s) refs (mkView n 0) = mkView n (closestIndex s refs)).
Proof.
  intro Hn. unfold rerunEffects. cbn [itemCount visibleIndex].
  destruct (Nat.eqb_spec n 0) as [E | _]; [contradiction|].
  unfold publish, applyPublish. split.
  - destruct (Z.leb_spec 0 (closestIndex s refs)) as [L | L];
      destruct (Z.eqb_spec (closestIndex s refs) index) as [Q | Q]; cbn;
      split; intro H; try (injection H as H); try (f_equal); try lia;
      destruct H as [-> H]; try lia; try reflexivity.
  - intro Hpos. rewrite Z.eqb_refl.
    destruct (Z.leb_spec 0 (closestIndex s refs)) as [L | L]; [|lia].
    destruct (Z.eqb_spec (closestIndex s refs) 0) as [Q | Q]; [lia|]. cbn. split; reflexivity.
Qed.

Lemma tracker_effects_settle_only_on_first_card_witness :
  rerunEffects true (Some (mkScroller 100 90 (mkRect 0 0)))
    [Some (mkRect (-90) 100); Some (mkRect 10 100); Some (mkRect 110 100)] (mkView 3 1)
  = mkView 3 0
  /\ rerunEffects true (Some (mkScroller 100 90 (mkRect 0 0)))
       [Some (mkRect (-90) 100); Some (mkRect 10 100); Some (mkRect 110 100)] (mkView 3 0)
     = mkView 3 1.
Proof.
  destruct (tracker_effects_settle_only_on_first_card 3 (mkScroller 100 90 (mkRect 0 0))
              [Some (mkRect (-90) 100); Some (mkRect 10 100); Some (mkRect 110 100)] 0)
    as (_ & H); [discriminate|].
  apply H. reflexivity.
Defined.

End TrackerMore.

(** ** What the hosts hand to their cards *)

Module HostMore.
Import JsNum Media Card Page Hosts HostFacts NeverVisible.

Lemma favoritesView_countVisible (favorites : list FavoriteRecipe) (k : Z) (start : nat) :
  countVisible (mapi (favoriteCard k) start favorites)
  = if (Z.of_nat start <=? k) && (k <? Z.of_nat (start + List.length favorites))
    then 1%nat else 0%nat.
Proof.
  revert start. induction favorites as [|f favorites IH]; intro start.
  - cbn. rewrite Nat.add_0_r.
    destruct (Z.leb_spec (Z.of_nat start) k), (Z.ltb_spec k (Z.of_nat start));
      cbn; try reflexivity; lia.
  - unfold countVisible in *. cbn [mapi filter].
    change (isVisible (destructure (favoriteCard k start f))) with (k =? Z.of_nat start).
    specialize (IH (S start)).
    destruct (Z.eqb_spec k (Z.of_nat start)) as [E | E]; cbn [List.length].
    + rewrite IH.
      destruct (Z.leb_spec (Z.of_nat (S start)) k); [lia|].
      destruct (Z.leb_spec (Z.of_nat start) k); [|lia].
      destruct (Z.ltb_spec k (Z.of_nat (start + S (List.length favorites)))); [|lia].
      reflexivity.
    + rewrite IH.
      replace (S start + List.length favorites)%nat
        with (start + S (List.length favorites))%nat by lia.
      destruct (Z.leb_spec (Z.of_nat (S start)) k), (Z.leb_spec (Z.of_nat start) k);
        cbn; try reflexivity; lia.
Qed.

Lemma feedView_countVisible (feedItems : list FeedItem) (k : Z) (start : nat) :
  countVisible (mapi (feedCard k) start feedItems)
  = if (Z.of_nat start <=? k) && (k <? Z.of_nat (start + List.length feedItems))
    then 1%nat else 0%nat.
Proof.
  revert start. induction feedItems as [|f feedItems IH]; intro start.
  - cbn. rewrite Nat.add_0_r.
    destruct (Z.leb_spec (Z.of_nat start) k), (Z.ltb_spec k (Z.of_nat start));
      cbn; try reflexivity; lia.
  - unfold countVisible in *. cbn [mapi filter].
    change (isVisible (destructure (feedCard k start f))) with (k =? Z.of_nat start).
    specialize (IH (S start)).
    destruct (Z.eqb_spec k (Z.of_nat start)) as [E | E]; cbn [List.length].
    + rewrite IH.
      destruct (Z.leb_spec (Z.of_nat (S start)) k); [lia|].
      destruct (Z.leb_spec (Z.of_nat start) k); [|lia].
      destruct (Z.ltb_spec k (Z.of_nat (start + S (List.length feedItems)))); [|lia].
      reflexivity.
    + rewrite IH.
      replace (S start + List.length feedItems)%nat
        with (start + S (List.length feedItems))%nat by lia.
      destruct (Z.leb_spec (Z.of_nat (S start)) k), (Z.leb_spec (Z.of_nat start) k);
        cbn; try reflexivity; lia.
Qed.

(** X4.  In every render of the favorites feed and of the main feed at
    most one card is told it is visible: exactly one when the published
    index is the position of a card, none otherwise. *)
Theorem one_visible_card_per_render (k : Z) :
  (forall favorites,
      countVisible (favoritesView favorites k)
      = if (0 <=? k) && (k <? Z.of_nat (List.length favorites)) then 1%nat else 0%nat)
  /\ (forall feedItems,
        countVisible (feedView feedItems k)
        = if (0 <=? k) && (k <? Z.of_nat (List.length feedItems)) then 1%nat else 0%nat).
Proof.
  split; intro l.
  - unfold favoritesView. now rewrite favoritesView_countVisible.
  - unfold feedView. now rewrite feedView_countVisible.
Qed.

(** X5.  In the main feed the voiceover of an item is filed under key 0 of
    its plan and looked up under the item's position, so every item after
    the first is rendered without a voiceover: no controls, no audio
    element. *)
Theorem feed_items_after_first_have_no_voiceover (visibleItemIndex : Z) (index : nat)
    (feedItem : FeedItem) (c : Card) :
  index <> 0%nat ->
  voiceoverUrl (destructure (feedCard visibleItemIndex index feedItem)) = None
  /\ hasVoiceover (destructure (feedCard visibleItemIndex index feedItem)) = false
  /\ audioElement (render (destructure (feedCard visibleItemIndex index feedItem)) c) = false
  /\ audioRef (attachRefs (destructure (feedCard visibleItemIndex index feedItem)) c) = None.
Proof.
  intro Hi.
  assert (H : voiceoverUrl (destructure (feedCard visibleItemIndex index feedItem)) = None).
  { destruct index as [|i]; [contradiction|].
    unfold voiceoverUrl, feedCard, destructure, voiceoverObject. cbn.
    destruct (feedVoiceoverUrl feedItem) as [u|]; [|reflexivity].
    destruct (truthy (Some u)); reflexivity. }
  assert (H' : hasVoiceover (destructure (feedCard visibleItemIndex index feedItem)) = false)
    by (unfold hasVoiceover; now rewrite H).
  split; [exact H|]. split; [exact H'|]. split.
  - unfold render. cbn. exact H'.
  - cbn. now rewrite H'.
Qed.

Lemma feed_items_after_first_have_no_voiceover_witness :
  hasVoiceover (destructure (feedCard 1 1
     (mkFeedItem "Stew" (Some "https://cdn.example/stew.mp4"%string)
        (Some "https://cdn.example/stew.mp3"%string)))) = false.
Proof.
  destruct (feed_items_after_first_have_no_voiceover 1 1
              (mkFeedItem "Stew" (Some "https://cdn.example/stew.mp4"%string)
                 (Some "https://cdn.example/stew.mp3"%string))
              (unmounted (mkProps "Stew" [] None false 0)))
    as (_ & H & _); [discriminate | exact H].
Defined.

(** X6.  In the favorites feed every card finds the voiceover of its
    favorite (the plan built for it files the URL under key 0 and the card
    is written with [recipeIndex = 0]): the card has a voiceover exactly
    when the favorite's URL is a non-empty string. *)
Theorem favorite_cards_find_their_voiceover (visibleFavoriteIndex : Z) (index : nat)
    (favorite : FavoriteRecipe) :
  voiceoverUrl (destructure (favoriteCard visibleFavoriteIndex index favorite))
  = (if truthy (favVoiceoverUrl favorite) then favVoiceoverUrl favorite else None)
  /\ hasVoiceover (destructure (favoriteCard visibleFavoriteIndex index favorite))
     = truthy (favVoiceoverUrl favorite)
  /\ videoUrls (destructure (favoriteCard visibleFavoriteIndex index favorite))
     = orEmpty (favVideoUrls favorite).
Proof.
  unfold hasVoiceover, voiceoverUrl, favoriteCard, destructure, voiceoverObject. cbn.
  destruct (favVoiceoverUrl favorite) as [u|]; [|repeat split].
  destruct (truthy (Some u)) eqn:E; cbn; rewrite ?E; repeat split; exact E.
Qed.

(** X7.  In the single-plan scroller every card is written without
    [recipeIndex], so every card looks its voiceover up under key 0: all
    cards of a plan share the voiceover of the first recipe, whatever is
    filed under their own positions. *)
Theorem scroller_cards_share_first_voiceover (plan : CulinaryPlan) (a : CardAttrs) :
  In a (recipeScroller plan) ->
  culinaryPlan (destructure a) = Some plan
  /\ voiceoverUrl (destructure a) = firstVoiceover plan
  /\ forall b, In b (recipeScroller plan) ->
       voiceoverUrl (destructure b) = voiceoverUrl (destructure a).
Proof.
  assert (H : forall x, In x (recipeScroller plan) ->
            culinaryPlan (destructure x) = Some plan
            /\ voiceoverUrl (destructure x) = firstVoiceover plan).
  { intros x Hin. unfold recipeScroller in Hin.
    apply In_mapi in Hin. destruct Hin as (i & title & _ & ->).
    split; reflexivity. }
  intro Ha. destruct (H a Ha) as [H1 H2].
  split; [exact H1|]. split; [exact H2|].
  intros b Hb. destruct (H b Hb) as [_ H3]. now rewrite H2, H3.
Qed.

Lemma scroller_cards_share_first_voiceover_witness :
  let plan := mkPlan ["leek"%string] ["Soup"%string; "Stew"%string] None None
                (Some [(0, "https://cdn.example/soup.mp3"%string);
                       (1, "https://cdn.example/stew.mp3"%string)]) in
  voiceoverUrl (destructure (scrollerCard plan 1 "Stew"))
  = Some "https://cdn.example/soup.mp3"%string.
Proof.
  intro plan.
  destruct (scroller_cards_share_first_voiceover plan (scrollerCard plan 1 "Stew"))
    as (_ & H & _).
  - right. left. reflexivity.
  - exact H.
Defined.

End HostMore.


(** ** Deactivation *)

Module Deactivation.
Import JsNum JsNumFacts Media Card Page Invariants Scenarios Shown Activation.

Lemma settledVisible_Visible (c : Card) :
  settledVisible c = true -> exists a, Visible c a.
Proof.
  unfold settledVisible. rewrite !andb_true_iff.
  intros (((((H1 & H2) & H3) & H4) & H5) & H6).
  apply Bool.eqb_prop in H6. unfold audioAttached in H4.
  destruct (audioRef c) as [a|] eqn:Ha; [|discriminate].
  destruct (voiceoverUrl (props c)) as [url|] eqn:Hu; [|discriminate].
  apply String.eqb_eq in H4. subst url.
  exists a. now constructor.
Qed.

Lemma attachRefs_attached (b : bool) (c : Card) (a : MediaElement) :
  hasVoiceover (props c) = true -> audioRef c = Some a -> videoAttached c = true ->
  attachRefs (withVisible b (props c)) c = c.
Proof.
  intros H4 H5 H7. unfold attachRefs, render.
  change (hasVoiceover (withVisible b (props c))) with (hasVoiceover (props c)).
  change (hasVideo (withVisible b (props c))) with (hasVideo (props c)).
  rewrite H4. unfold videoAttached in H7. unfold hasVideo.
  destruct c as [p cm pl mu cmu fav lg vr ar pv och ld cp sy q tr].
  cbn in *. subst ar.
  destruct vr as [v|], (videoUrls p) as [|u r]; try discriminate; reflexivity.
Qed.

Lemma playPauseEffect_hidden (p : Props) (pf : Platform) (c : Card) (a : MediaElement) :
  audioRef c = Some a -> hasVoiceover p = true -> isVisible p = false ->
  playPauseEffect p pf c = setPrevVisible false (hideBranch a c).
Proof.
  intros Ha Hv Hp. unfold playPauseEffect, hideBranch, stopBranch.
  rewrite Ha, Hv, Hp. cbn [negb andb].
  destruct (prevVisibleRef c); [reflexivity|]. cbn [negb andb].
  now destruct (negb (paused a)).
Qed.

Lemma syncEffect_hidden (p : Props) (c : Card) :
  isVisible p = false -> syncEffect p c = setSync None c.
Proof.
  intro Hp. unfold syncEffect. rewrite Hp, !andb_false_r.
  now destruct (videoRef c), (audioRef c).
Qed.

Lemma deactivate_unfold (pf : Platform) (c : Card) (a : MediaElement) :
  Visible c a ->
  deactivate pf c
  = let p := withVisible false (props c) in
    let c2 := if hasVideo (props c) then emit (Console LogLoadingVideo) c else c in
    let c3 := setAudio (withVolume (voiceoverVolume (isVoiceoverMuted c)) a) c2 in
    setProps p (setSync None (setPrevVisible false
      (hideBranch (withVolume (voiceoverVolume (isVoiceoverMuted c)) a) c3))).
Proof.
  intros [H1 H2 H4 H5 H6 H7 H8].
  unfold deactivate, commit, commitAnnounce.
  rewrite (attachRefs_attached false c a H4 H5 H7).
  rewrite visibilityDepsChanged_flip by (now rewrite H2).
  unfold stopOthersEffect. cbn [isVisible withVisible andb].
  unfold commitRest.
  assert (Hd : visibilityDepsChanged (withVisible false (props c)) c = true)
    by (apply visibilityDepsChanged_flip; now rewrite H2).
  unfold playPauseDepsChanged, voiceoverDepsChanged, syncDepsChanged.
  rewrite Hd. cbn [orb].
  replace (negb (committed c)
           || negb (Bool.eqb (hasVideo (withVisible false (props c))) (hasVideo (props c)))
           || negb (Bool.eqb (hasVoiceover (withVisible false (props c)))
                      (hasVoiceover (props c)))
           || negb (Bool.eqb (isVisible (withVisible false (props c))) (isVisible (props c)))
           || negb (Bool.eqb (isVoiceoverMuted c) (committedMuted c)))
    with true
    by (cbn; rewrite H2; cbn; now rewrite !orb_true_r).
  cbv zeta.
  rewrite (videoLoadEffect_attached false pf c H7).
  set (c2 := if hasVideo (props c) then emit (Console LogLoadingVideo) c else c).
  assert (Ha2 : audioRef c2 = Some a)
    by (unfold c2; destruct (hasVideo (props c)); exact H5).
  assert (Hm2 : isVoiceoverMuted c2 = isVoiceoverMuted c)
    by (unfold c2; destruct (hasVideo (props c)); reflexivity).
  rewrite (voiceoverLoadEffect_attached (withVisible false (props c)) c2 a Ha2 H4 H6), Hm2.
  set (c3 := setAudio (withVolume (voiceoverVolume (isVoiceoverMuted c)) a) c2).
  rewrite (playPauseEffect_hidden (withVisible false (props c)) pf c3
             (withVolume (voiceoverVolume (isVoiceoverMuted c)) a));
    [|reflexivity | exact H4 | reflexivity].
  now rewrite syncEffect_hidden by reflexivity.
Qed.

Ltac open_hide :=
  unfold hideBranch, stopBranch, audioSeek, audioPause, pause.

Lemma deactivation_stops_audio_facts (pf : Platform) (c : Card) :
  settledVisible c = true ->
  isVisible (props (deactivate pf c)) = false
  /\ audioPaused (deactivate pf c) = Some true
  /\ onceCanPlay (deactivate pf c) = onceCanPlay c.
Proof.
  intro Hs. destruct (settledVisible_Visible c Hs) as [a HV].
  rewrite (deactivate_unfold pf c a HV). cbv zeta.
  pose proof HV as [H1 H2 H4 H5 H6 H7 H8].
  unfold audioPaused. open_hide.
  destruct (hasVideo (props c)), (prevVisibleRef c) eqn:Hprev, (paused a) eqn:Hp;
    cbn; rewrite ?Hprev, ?Hp; cbn; rewrite ?Hp; cbn; repeat split; reflexivity.
Qed.

(** X8.  Deactivating a committed card with a voiceover (its [isVisible]
    goes from true to false) leaves its audio paused, removes the sync
    closure together with any pending sync timer, leaves the video element
    and the pending one-shot start listeners as they were, and neither
    announces nor asks the audio to play; the card is then in the state
    from which an activation starts.  When the play/pause effect had
    recorded the card as visible, the audio is also rewound to 0 and the
    playing flag cleared. *)
Theorem deactivation_stops_audio (pf : Platform) (c : Card) :
  settledVisible c = true ->
  isVisible (props (deactivate pf c)) = false
  /\ audioPaused (deactivate pf c) = Some true
  /\ sync (deactivate pf c) = None
  /\ videoRef (deactivate pf c) = videoRef c
  /\ onceLoadedData (deactivate pf c) = onceLoadedData c
  /\ onceCanPlay (deactivate pf c) = onceCanPlay c
  /\ settledHidden (deactivate pf c) = true
  /\ (exists added, trace (deactivate pf c) = trace c ++ added
                    /\ forallb silent added = true)
  /\ (prevVisibleRef c = true ->
      audioTime (deactivate pf c) = Some 0%Q
      /\ isVoiceoverPlaying (deactivate pf c) = false).
Proof.
  intro Hs. destruct (settledVisible_Visible c Hs) as [a HV].
  rewrite (deactivate_unfold pf c a HV). cbv zeta.
  pose proof HV as [H1 H2 H4 H5 H6 H7 H8].
  unfold audioPaused, audioTime, settledHidden, audioAttached.
  assert (Hsrc : (src a =? src a)%string = true) by apply String.eqb_refl.
  assert (Hva : videoAttached c = true) by exact H7.
  unfold videoAttached in *.
  assert (Hurl : voiceoverUrl (withVisible false (props c)) = Some (src a)) by exact H6.
  assert (Hhv : hasVoiceover (withVisible false (props c)) = true) by exact H4.
  open_hide.
  destruct (hasVideo (props c)), (prevVisibleRef c) eqn:Hprev, (paused a) eqn:Hp;
    cbn; rewrite ?Hprev, ?Hp; cbn; rewrite ?Hp; cbn;
    rewrite ?Hurl, ?Hhv, ?Hsrc, ?H7, ?Bool.eqb_reflx; cbn;
    (split; [reflexivity|]); (split; [reflexivity|]); (split; [reflexivity|]);
    (split; [reflexivity|]); (split; [reflexivity|]); (split; [reflexivity|]);
    (split; [reflexivity|]);
    (split; [eexists; rewrite <- ?app_assoc; split;
               [try reflexivity; symmetry; apply app_nil_r | reflexivity]|]);
    intro Hx; try discriminate; split; reflexivity.
Qed.

Lemma deactivation_stops_audio_witness :
  settledVisible (activate allowing hiddenSoup) = true
  /\ audioPaused (deactivate allowing (activate allowing hiddenSoup)) = Some true
  /\ sync (deactivate allowing (activate allowing hiddenSoup)) = None.
Proof.
  assert (H : settledVisible (activate allowing hiddenSoup) = true)
    by (vm_compute; reflexivity).
  split; [exact H|].
  destruct (deactivation_stops_audio allowing (activate allowing hiddenSoup) H)
    as (_ & H2 & H3 & _).
  split; assumption.
Defined.

End Deactivation.

(** ** Starts deferred to [loadeddata] / [canplay] *)

Module DeferredStart.
Import JsNum JsNumFacts Media Card Page Invariants Scenarios Shown Activation Deactivation.

Lemma activation_settles (pf : Platform) (c : Card) :
  settledHidden c = true ->
  settledShown (activate pf c) = true.
Proof.
  intro Hs. destruct (settledHidden_Settled c Hs) as [a HS].
  rewrite (activate_unfold pf c a HS). cbv zeta.
  pose proof HS as [H1 H2 H3 H4 H5 H6 H7 H8].
  assert (Hsrc : (src a =? src a)%string = true) by apply String.eqb_refl.
  assert (Hurl : voiceoverUrl (withVisible true (props c)) = Some (src a)) by exact H6.
  assert (Hhv : hasVoiceover (withVisible true (props c)) = true) by exact H4.
  assert (Hva : videoAttached c = true) by exact H7.
  unfold videoAttached in Hva.
  run_start.
  unfold settledShown, settledVisible, audioAttached, videoAttached.
  destruct (hasVideo (props c)), (isVoiceoverMuted c);
    [| destruct (2 <=? readyState a)%nat, (readyState a =? 0)%nat, (allowAudio pf)
     | | destruct (2 <=? readyState a)%nat, (readyState a =? 0)%nat, (allowAudio pf)];
    cbn; rewrite ?Hurl, ?Hhv, ?Hsrc, ?Hva, ?Bool.eqb_reflx; reflexivity.
Qed.

Lemma activation_defers (pf : Platform) (c : Card) (a : MediaElement) :
  settledHidden c = true -> audioRef c = Some a ->
  isVoiceoverMuted c = false -> (readyState a < 2)%nat ->
  onceCanPlay (activate pf c) = S (onceCanPlay c)
  /\ onceLoadedData (activate pf c) = S (onceLoadedData c).
Proof.
  intros Hs Ha Hm Hr. destruct (settledHidden_Settled c Hs) as [a' HS].
  rewrite (activate_unfold pf c a' HS). cbv zeta.
  pose proof HS as [H1 H2 H3 H4 H5 H6 H7 H8].
  rewrite Ha in H5. injection H5 as <-.
  run_start. rewrite Hm.
  apply Nat.leb_gt in Hr. rewrite Hr.
  destruct (hasVideo (props c)), (readyState a =? 0)%nat; cbn; split; reflexivity.
Qed.

Lemma attemptPlay_allowed (pf : Platform) (c : Card) (a : MediaElement) :
  audioRef c = Some a -> allowAudio pf = true ->
  audioRef (attemptPlay pf c) = Some (withPaused false (seek 0 a))
  /\ isVoiceoverPlaying (attemptPlay pf c) = true
  /\ props (attemptPlay pf c) = props c.
Proof.
  intros Ha Hp. unfold attemptPlay, audioSeek, audioPlay, play.
  rewrite Ha, Hp. cbn. repeat split; reflexivity.
Qed.

Lemma repeatAttempt_allowed (n : nat) (pf : Platform) :
  allowAudio pf = true ->
  forall (c : Card) (a : MediaElement),
  audioRef c = Some a ->
  audioRef (repeatAttempt (S n) pf c) = Some (withPaused false (seek 0 a))
  /\ isVoiceoverPlaying (repeatAttempt (S n) pf c) = true
  /\ props (repeatAttempt (S n) pf c) = props c.
Proof.
  intro Hp. induction n as [|n IH]; intros c a Ha.
  - cbn [repeatAttempt]. now apply attemptPlay_allowed.
  - change (repeatAttempt (S (S n)) pf c)
      with (repeatAttempt (S n) pf (attemptPlay pf c)).
    destruct (attemptPlay_allowed pf c a Ha Hp) as (E1 & _ & E3).
    destruct (IH _ _ E1) as (F1 & F2 & F3).
    rewrite F1, F2, F3, E3. repeat split; reflexivity.
Qed.

Lemma runOnCanPlay_frame (pf : Platform) (c : Card) (a : MediaElement) :
  audioRef c = Some a ->
  (exists a', audioRef (runOnCanPlay pf c) = Some a')
  /\ onceCanPlay (runOnCanPlay pf c) = onceCanPlay c
  /\ props (runOnCanPlay pf c) = props c.
Proof.
  intro Ha. unfold runOnCanPlay, audioPlayCatch, audioPlay, audioSeek, play.
  destruct (audioOnCanPlay c) as [[v m]|]; [|eauto].
  destruct (v && negb m); cbn; rewrite ?Ha; cbn; [|eauto].
  destruct (allowAudio pf); cbn; eauto.
Qed.

(** X9.  The one-shot [loadeddata] / [canplay] listeners that an
    activation leaves when the audio is not ready are not removed when the
    card is hidden again.  A card activated before its audio was ready
    (unmuted) and then deactivated is paused and hidden, but when the audio
    then fires [canplay] on a platform that allows playback, the listener
    starts the voiceover from 0 although the card is not visible. *)
Theorem deferred_start_fires_while_hidden
    (pf1 pf2 pf3 : Platform) (c : Card) (a : MediaElement)
    (rs : nat) (d : option Q) (t : Q) :
  settledHidden c = true -> audioRef c = Some a ->
  isVoiceoverMuted c = false -> (readyState a < 2)%nat ->
  allowAudio pf3 = true ->
  let hidden := deactivate pf2 (activate pf1 c) in
  let later := onAudioCanPlay pf3 (audioProgress rs d t hidden) in
  (isVisible (props hidden) = false
   /\ audioPaused hidden = Some true
   /\ onceCanPlay hidden = S (onceCanPlay c))
  /\ isVisible (props later) = false
  /\ audioPaused later = Some false
  /\ audioTime later = Some 0%Q
  /\ isVoiceoverPlaying later = true.
Proof.
  intros Hs Ha Hm Hr Hp hidden later.
  pose proof (activation_settles pf1 c Hs) as Hshown.
  unfold settledShown in Hshown. apply andb_true_iff in Hshown as [Hvis Hprev].
  destruct (deactivation_stops_audio_facts pf2 (activate pf1 c) Hvis)
    as (D1 & D2 & D6).
  destruct (activation_defers pf1 c a Hs Ha Hm Hr) as [A1 _].
  fold hidden in D1, D2, D6.
  assert (Hh : onceCanPlay hidden = S (onceCanPlay c)) by (now rewrite D6, A1).
  split; [repeat split; assumption|].
  unfold audioPaused in D2.
  destruct (audioRef hidden) as [ah|] eqn:Eh; [|discriminate].
  assert (Eprog : audioRef (audioProgress rs d t hidden) = Some (progress rs d t ah))
    by (unfold audioProgress; now rewrite Eh).
  assert (Pprops : props (audioProgress rs d t hidden) = props hidden)
    by (unfold audioProgress; now rewrite Eh).
  assert (Ponce : onceCanPlay (audioProgress rs d t hidden) = onceCanPlay hidden)
    by (unfold audioProgress; now rewrite Eh).
  destruct (runOnCanPlay_frame pf3 _ _ Eprog) as ([a' R1] & R2 & R3).
  unfold later, onAudioCanPlay. cbv zeta.
  rewrite R2, Ponce, Hh.
  set (c0 := setOnce _ 0 _).
  assert (E0 : audioRef c0 = Some a') by exact R1.
  assert (P0 : props c0 = props hidden) by (unfold c0; cbn; now rewrite R3, Pprops).
  destruct (repeatAttempt_allowed (onceCanPlay c) pf3 Hp c0 a' E0) as (F1 & F2 & F3).
  unfold audioPaused, audioTime. rewrite F1, F2, F3, P0.
  repeat split; try reflexivity. exact D1.
Qed.

Lemma deferred_start_fires_while_hidden_witness :
  settledHidden (audioProgress 1 None 0 hiddenSoup) = true
  /\ isVoiceoverPlaying
       (onAudioCanPlay allowing
          (audioProgress 4 (Some 8%Q) 0
             (deactivate allowing
                (activate allowing (audioProgress 1 None 0 hiddenSoup))))) = true.
Proof.
  assert (H : settledHidden (audioProgress 1 None 0 hiddenSoup) = true)
    by (vm_compute; reflexivity).
  split; [exact H|].
  refine (proj2 (proj2 (proj2 (proj2
    (deferred_start_fires_while_hidden allowing allowing allowing
       (audioProgress 1 None 0 hiddenSoup)
       (progress 1 None 0
          (mkMedia "https://cdn.example/soup.mp3" true 0 (Some 8%Q) 4 (7 # 10) true))
       4 (Some 8%Q) 0 H _ _ _ _))))).
  - vm_compute; reflexivity.
  - reflexivity.
  - cbn; lia.
  - reflexivity.
Defined.

End DeferredStart.


(** ** The voiceover controls of a shown card *)

Module Controls.
Import JsNum JsNumFacts Media Card Page Invariants Scenarios Shown Activation Deactivation.









End Controls.

(** ** The play/pause button *)

Module PlayButton.
Import JsNum Media Card Page Invariants Scenarios Shown.




(** X12.  The button follows the playing flag, not the element: when the
    flag says playing while the element is paused and no event is pending,
    a click asks the paused element to pause, no event follows, and the
    card is left exactly as it was apart from the trace; the voiceover
    cannot be started from the button in that state. *)
Theorem play_button_stuck_when_flag_is_stale (pf : Platform) (c : Card) (a : MediaElement) :
  audioRef c = Some a -> paused a = true -> isVoiceoverPlaying c = true ->
  audioQueue c = [] ->
  let clicked := deliverAudioEvent (toggleVoiceover pf c) in
  audioRef clicked = Some a
  /\ isVoiceoverPlaying clicked = true
  /\ audioQueue clicked = []
  /\ trace clicked = trace c ++ [AudioPause].
Proof.
  intros Ha Hp Hf Hq. cbv zeta.
  unfold toggleVoiceover, deliverAudioEvent, audioPause, pause.
  rewrite Ha, Hf, Hp. cbn. rewrite Hq. cbn. rewrite ?Ha, ?Hf. now repeat split.
Qed.

Lemma play_button_stuck_when_flag_is_stale_witness :
  isVoiceoverPlaying
    (deliverAudioEvent (toggleVoiceover allowing (audioLoad (deliverAudioEvent playingSoup))))
  = true.
Proof.
  refine (proj1 (proj2
    (play_button_stuck_when_flag_is_stale allowing
       (audioLoad (deliverAudioEvent playingSoup))
       (load (mkMedia "https://cdn.example/soup.mp3" false 0 (Some 8%Q) 4 (7 # 10) true))
       _ _ _ _))).
  - vm_compute; reflexivity.
  - reflexivity.
  - vm_compute; reflexivity.
  - vm_compute; reflexivity.
Defined.

End PlayButton.


(** ** Receiving a stop announcement *)

Module StopAnnouncement.
Import JsNum Media Card Page Invariants Scenarios.

Lemma handleStopAudio_stops (ev : StopEvent) (c : Card) (a : MediaElement) :
  committed c = true -> audioRef c = Some a ->
  exceptIndex ev <> recipeIndex (props c) ->
  newVisibleIndex ev <> recipeIndex (props c) ->
  handleStopAudio ev c
  = emit (Console LogAudioStopped)
      (setIsVoiceoverPlaying false (audioSeek 0 (audioPause c))).
Proof.
  intros Hc Ha H1 H2. apply Z.eqb_neq in H1, H2.
  unfold handleStopAudio. now rewrite Hc, H1, H2, Ha.
Qed.

(** X13.  A committed card with an audio element that receives a stop
    announcement for another index pauses (queueing [pause] only if it was
    playing), rewinds to 0 and clears its flag, without any play request
    or announcement of its own.  The pending one-shot start listeners, the
    [oncanplay] handler and the sync closure survive the stop, and the
    video is untouched.  A further announcement for another index changes
    nothing but the trace. *)
Theorem stop_announcement_stops_once (ev ev' : StopEvent) (c : Card) (a : MediaElement) :
  committed c = true -> audioRef c = Some a ->
  exceptIndex ev <> recipeIndex (props c) ->
  newVisibleIndex ev <> recipeIndex (props c) ->
  exceptIndex ev' <> recipeIndex (props c) ->
  newVisibleIndex ev' <> recipeIndex (props c) ->
  let stopped := handleStopAudio ev c in
  let again := handleStopAudio ev' stopped in
  audioRef stopped = Some (seek 0 (withPaused true a))
  /\ isVoiceoverPlaying stopped = false
  /\ audioQueue stopped = audioQueue c ++ (if paused a then [] else [EvPause])
  /\ trace stopped = trace c ++ [AudioPause; AudioSeek 0; Console LogAudioStopped]
  /\ (onceLoadedData stopped, onceCanPlay stopped, audioOnCanPlay stopped, sync stopped)
     = (onceLoadedData c, onceCanPlay c, audioOnCanPlay c, sync c)
  /\ videoRef stopped = videoRef c
  /\ audioRef again = audioRef stopped
  /\ isVoiceoverPlaying again = false
  /\ audioQueue again = audioQueue stopped.
Proof.
  intros Hc Ha H1 H2 H3 H4. cbv zeta.
  rewrite (handleStopAudio_stops ev c a Hc Ha H1 H2).
  set (stopped := emit _ _).
  assert (E : audioRef stopped = Some (seek 0 (withPaused true a))).
  { unfold stopped, audioPause, audioSeek, pause. rewrite Ha.
    destruct a as [s p t d rs vol lp]. destruct p; reflexivity. }
  assert (P : props stopped = props c).
  { unfold stopped, audioPause, audioSeek, pause. rewrite Ha.
    destruct (paused a); reflexivity. }
  assert (C : committed stopped = true).
  { unfold stopped, audioPause, audioSeek, pause. rewrite Ha.
    destruct (paused a); exact Hc. }
  rewrite <- P in H3, H4.
  rewrite (handleStopAudio_stops ev' stopped _ C E H3 H4).
  unfold audioPause at 1 2 3. unfold audioSeek at 1 2 3. rewrite E.
  cbn [pause withPaused seek paused].
  split; [reflexivity|]. clear E P C H3 H4.
  repeat apply conj.
  1-5: unfold stopped, audioPause, audioSeek, pause; rewrite Ha;
       destruct a as [s p t d rs vol lp];
       destruct p; cbn; rewrite ?app_nil_r, <- ?app_assoc; reflexivity.
  all: clearbody stopped; cbn; rewrite ?app_nil_r; reflexivity.
Qed.

Lemma stop_announcement_stops_once_witness :
  isVoiceoverPlaying (handleStopAudio (mkStop 1 1) playingSoup) = false
  /\ audioPaused (handleStopAudio (mkStop 1 1) playingSoup) = Some true.
Proof.
  destruct (stop_announcement_stops_once (mkStop 1 1) (mkStop 2 2) playingSoup
              (mkMedia "https://cdn.example/soup.mp3" false 0 (Some 8%Q) 4 (7 # 10) true))
    as (E1 & E2 & _).
  - reflexivity.
  - vm_compute; reflexivity.
  - cbn; lia.
  - cbn; lia.
  - cbn; lia.
  - cbn; lia.
  - split; [exact E2|]. unfold audioPaused. rewrite E1. reflexivity.
Defined.

End StopAnnouncement.

(** ** The body of the sync check *)

Module SyncCheck.
Import JsNum JsNumFacts Media Card Page Scenarios Synchronizer.





(** X15.  Every [timeupdate] cancels the pending sync timer and arms a new
    one 2000 ms ahead: until 2000 ms have passed after a [timeupdate], the
    clock reaching any earlier time runs no check and changes nothing. *)
Theorem sync_check_is_postponed_by_every_timeupdate
    (now now' : Z) (t : Q) (pf : Platform) (c : Card)
    (s : SyncClosure) (v a : MediaElement) :
  sync c = Some s -> videoRef c = Some v -> audioRef c = Some a ->
  now' < now + 2000 ->
  timerTick now' (onVideoTimeUpdate now t pf c) = onVideoTimeUpdate now t pf c
  /\ option_map syncTimeout (sync (onVideoTimeUpdate now t pf c))
     = Some (Some (now + 2000, t)).
Proof.
  intros Hs Hv Ha Hlt. split.
  - exact (sync_timer_rearmed now now' t pf c s v a Hs Hv Ha Hlt).
  - destruct (timerTick_frame now c s a Hs Ha) as (a' & s' & Ha' & _ & Hs' & _ & Hv' & _).
    unfold onVideoTimeUpdate. rewrite Hv', Hv.
    set (c1 := setVideo (seek t v) (timerTick now c)).
    destruct (handleVideoTimeUpdate_records now pf c1 s' (seek t v) a' Hs' eq_refl Ha')
      as (Hrec & _).
    rewrite Hrec. reflexivity.
Qed.

Lemma sync_check_is_postponed_by_every_timeupdate_witness :
  timerTick 2999 (onVideoTimeUpdate 1000 2 allowing playingSoup)
  = onVideoTimeUpdate 1000 2 allowing playingSoup.
Proof.
  refine (proj1 (sync_check_is_postponed_by_every_timeupdate 1000 2999 2 allowing
            playingSoup (mkSync 0 None)
            (mkMedia "https://cdn.example/soup.mp4" false 1 (Some 10%Q) 4 1 true)
            (mkMedia "https://cdn.example/soup.mp3" false 0 (Some 8%Q) 4 (7 # 10) true)
            _ _ _ _)).
  - vm_compute; reflexivity.
  - vm_compute; reflexivity.
  - vm_compute; reflexivity.
  - lia.
Defined.

End SyncCheck.


(** ** The upload form *)

Module UploaderFacts.
Import Uploader.

Lemma formRun_file (onTestMode : bool) (evs : list FormEvent) :
  forall s, file (fst (formRun onTestMode s evs)) = lastOffered (file s) evs.
Proof.
  induction evs as [|e rest IH]; intro s; [reflexivity|].
  cbn [formRun lastOffered].
  destruct (formStep onTestMode s e) as [s1 out1] eqn:E1.
  specialize (IH s1).
  destruct (formRun onTestMode s1 rest) as [s2 out2]. cbn [fst] in *.
  rewrite IH. f_equal.
  destruct e as [[|f fs]|[|f fs]| | | | |]; cbn in E1; injection E1 as <- _;
    try reflexivity.
  unfold handleDrop, offered. destruct (isImage f); reflexivity.
Qed.

Lemma formRun_requests (onTestMode : bool) (evs : list FormEvent) :
  forall s r, In r (snd (formRun onTestMode s evs)) ->
  (file s = Some (requestFile r)
   \/ exists e, In e evs /\ offered e = Some (requestFile r))
  /\ (onTestMode = false -> exists f, r = OnImageUpload f).
Proof.
  induction evs as [|e rest IH]; intros s r Hin; [contradiction|].
  cbn [formRun] in Hin.
  destruct (formStep onTestMode s e) as [s1 out1] eqn:E1.
  specialize (IH s1 r).
  destruct (formRun onTestMode s1 rest) as [s2 out2]. cbn [snd] in *.
  apply in_app_or in Hin as [Hin|Hin].
  - destruct e as [files|files| | |f| |]; cbn in E1; injection E1 as <- <-;
      try contradiction.
    + unfold handleGenerateClick in Hin. destruct (file s) as [f|]; [|contradiction].
      destruct Hin as [<-|[]]. split; [now left | intros _; now exists f].
    + unfold handleTestModeClick in Hin. destruct (file s) as [f|]; [|contradiction].
      destruct onTestMode; [|contradiction].
      destruct Hin as [<-|[]]. split; [now left | discriminate].
  - destruct (IH Hin) as [[Hs|(e' & He' & Ho)] Ht]; split; try exact Ht.
    + assert (Hcase : file s1 = file s \/ offered e = file s1 /\ file s1 <> None).
      { destruct e as [[|f fs]|[|f fs]| | |f| |]; cbn in E1; injection E1 as <- _;
          try (now left).
        - right. split; [reflexivity | discriminate].
        - unfold handleDrop, offered. destruct (isImage f);
            [right; split; [reflexivity | discriminate] | now left]. }
      destruct Hcase as [Hsame|[Hoff _]].
      * left. now rewrite <- Hsame.
      * right. exists e. split; [now left | now rewrite Hoff].
    + right. exists e'. split; [now right | exact Ho].
Qed.

(** X16.  The file the form holds is the last one it was offered and took:
    the first file of an input change (whatever its type), or the first
    file of a drop when its type starts with [image/]; a drop whose first
    file is not an image changes nothing.  Every upload or test-mode
    request carries a file that was taken in this way at some earlier
    event, so nothing is requested before a file was chosen; and test-mode
    requests are made only when the parent passed [onTestMode]. *)
Theorem uploads_carry_an_accepted_file (onTestMode : bool) (evs : list FormEvent) :
  file (fst (formRun onTestMode initialForm evs)) = lastOffered None evs
  /\ (forall r, In r (snd (formRun onTestMode initialForm evs)) ->
      (exists e, In e evs /\ offered e = Some (requestFile r))
      /\ (onTestMode = false -> exists f, r = OnImageUpload f))
  /\ (forall files f fs s, files = f :: fs -> isImage f = false ->
      file (handleDrop files s) = file s).
Proof.
  split; [apply (formRun_file onTestMode evs initialForm)|]. split.
  - intros r Hin.
    destruct (formRun_requests onTestMode evs initialForm r Hin) as [[Hs|He] Ht].
    + discriminate Hs.
    + split; assumption.
  - intros files f fs s -> Hf. unfold handleDrop. now rewrite Hf.
Qed.

End UploaderFacts.

(** ** The plan service *)

Module GeminiFacts.
Import Card Gemini UploadFacts.

Lemma ensureApiKey_key (env : KeyEnvironment) :
  fst (ensureApiKey env)
  = match keyRead env with
    | Some k => if truthy (Some k) then inl k
                else inr (ErrorObject (if aistudio env then cancelledMessage
                                       else notConfiguredMessage))
    | None => inr (ErrorObject (if aistudio env then cancelledMessage
                                else notConfiguredMessage))
    end.
Proof.
  unfold ensureApiKey, keyRead.
  destruct (aistudio env), (hasSelectedApiKey env); cbn [andb negb].
  - destruct (envKey env) as [k|]; [destruct (truthy (Some k))|]; reflexivity.
  - destruct (envKeyAfterDialog env) as [k|]; [destruct (truthy (Some k))|]; reflexivity.
  - destruct (envKey env) as [k|]; [destruct (truthy (Some k))|]; reflexivity.
  - destruct (envKey env) as [k|]; [destruct (truthy (Some k))|]; reflexivity.
Qed.

(** X17.  [ensureApiKey] never returns an empty key: it returns the key it
    reads (after the dialog when it had to open it) exactly when that key
    is a non-empty string, and otherwise throws, with the message for a
    cancelled selection inside AI Studio and the message for a missing
    configuration outside.  The key dialog is opened only inside AI Studio
    and only when no key had been selected. *)
Theorem ensureApiKey_returns_a_usable_key (env : KeyEnvironment) :
  (forall k, fst (ensureApiKey env) = inl k <->
             keyRead env = Some k /\ k <> EmptyString)
  /\ (forall t, fst (ensureApiKey env) = inr t ->
                truthy (keyRead env) = false
                /\ t = ErrorObject (if aistudio env then cancelledMessage
                                    else notConfiguredMessage))
  /\ snd (ensureApiKey env) = aistudio env && negb (hasSelectedApiKey env).
Proof.
  repeat apply conj.
  - intro k. rewrite ensureApiKey_key.
    destruct (keyRead env) as [k'|]; [|split; [discriminate | intros [H _]; discriminate]].
    destruct k' as [|c r]; cbn.
    + split; [discriminate | intros [[= <-] H]; now contradiction H].
    + split; [intros [= <-]; split; [reflexivity | discriminate]
             | intros [[= <-] _]; reflexivity].
  - intros t. rewrite ensureApiKey_key.
    destruct (keyRead env) as [[|c r]|]; cbn; try discriminate;
      intros [= <-]; split; reflexivity.
  - unfold ensureApiKey.
    destruct (aistudio env), (hasSelectedApiKey env); cbn [andb negb].
    + destruct (envKey env) as [k|]; [destruct (truthy (Some k))|]; reflexivity.
    + destruct (envKeyAfterDialog env) as [k|]; [destruct (truthy (Some k))|]; reflexivity.
    + destruct (envKey env) as [k|]; [destruct (truthy (Some k))|]; reflexivity.
    + destruct (envKey env) as [k|]; [destruct (truthy (Some k))|]; reflexivity.
Qed.

End GeminiFacts.

(** ** The application shell *)

Module AppFacts.
Import Card Hosts Uploader Gemini AppShell UploadFacts GeminiFacts.

Lemma voiceoverLoop_lookup (sv : Services) (sb : nat -> option string) :
  forall count i j,
  lookupKey (Z.of_nat j) (voiceoverLoop sv sb i count)
  = if (i <=? j)%nat && (j <? i + count)%nat then voiceoverFor sv sb j else None.
Proof.
  induction count as [|k IH]; intros i j.
  - cbn [voiceoverLoop lookupKey].
    destruct (Nat.leb_spec i j), (Nat.ltb_spec j (i + 0)); cbn [andb];
      try reflexivity; lia.
  - cbn [voiceoverLoop]. pose proof (IH (S i) j) as Hrest.
    destruct (Nat.eq_dec j i) as [->|Hne].
    + rewrite Nat.leb_refl.
      replace (i <? i + S k)%nat with true by (symmetry; apply Nat.ltb_lt; lia).
      replace (S i <=? i)%nat with false in Hrest by (symmetry; apply Nat.leb_gt; lia).
      cbn [andb] in *. unfold voiceoverFor.
      destruct (sb i) as [script|]; [|exact Hrest].
      destruct (truthy (Some script)); [|exact Hrest].
      destruct (generateRecipeVoiceover sv i script); [|exact Hrest].
      cbn [lookupKey]. now rewrite Z.eqb_refl.
    + assert (E : (Z.of_nat i =? Z.of_nat j) = false) by (apply Z.eqb_neq; lia).
      assert (B : ((i <=? j)%nat && (j <? i + S k)%nat)
                  = ((S i <=? j)%nat && (j <? S i + k)%nat)).
      { destruct (Nat.leb_spec i j), (Nat.ltb_spec j (i + S k)),
          (Nat.leb_spec (S i) j), (Nat.ltb_spec j (S i + k)); cbn [andb];
          try reflexivity; lia. }
      rewrite B, <- Hrest.
      destruct (sb i) as [script|]; [|reflexivity].
      destruct (truthy (Some script)); [|reflexivity].
      destruct (generateRecipeVoiceover sv i script); [|reflexivity].
      cbn [lookupKey]. now rewrite E.
Qed.

Lemma voiceoverLoop_from_zero (sv : Services) (sb : nat -> option string)
    (count j : nat) :
  lookupKey (Z.of_nat j) (voiceoverLoop sv sb 0 count)
  = if (j <? count)%nat then voiceoverFor sv sb j else None.
Proof.
  rewrite voiceoverLoop_lookup. reflexivity.
Qed.

(** X18.  When [generateCulinaryPlan] throws, the upload ends on the error
    screen with the message of the error (or the generic text for a thrown
    value that is no [Error]), the plan is left as it was, and no recipe
    screen is reached.  With the plan service of [geminiService]: without
    a usable API key the message is the one for a cancelled selection (in
    AI Studio) or for a missing configuration; a response that does not
    parse gives the invalid-response message; what the model call throws
    is shown as it is. *)
Theorem plan_failure_ends_on_error_screen
    (sv : Services) (f : File) (testMode : bool) (m : AppModel)
    (env : KeyEnvironment) (respond : string -> string + Thrown)
    (parse : string -> option GeneratedPlan) :
  planFor sv f = generateCulinaryPlan env respond parse ->
  (forall t, generateCulinaryPlan env respond parse = inr t ->
     renderContent (handleImageUpload sv f testMode m)
       = ErrorScreen (Some (shownMessage t))
     /\ culinaryPlan (handleImageUpload sv f testMode m) = culinaryPlan m
     /\ AppShell.imagePreview (handleImageUpload sv f testMode m) = Some f)
  /\ (truthy (keyRead env) = false ->
      renderContent (handleImageUpload sv f testMode m)
      = ErrorScreen (Some (if aistudio env then cancelledMessage
                           else notConfiguredMessage)))
  /\ (forall k jsonText, keyRead env = Some k -> k <> EmptyString ->
      respond k = inl jsonText -> parse jsonText = None ->
      renderContent (handleImageUpload sv f testMode m)
      = ErrorScreen (Some invalidResponseMessage))
  /\ (forall k t, keyRead env = Some k -> k <> EmptyString ->
      respond k = inr t ->
      renderContent (handleImageUpload sv f testMode m)
      = ErrorScreen (Some (shownMessage t))).
Proof.
  intro Hp.
  assert (G : forall t, generateCulinaryPlan env respond parse = inr t ->
              handleImageUpload sv f testMode m
              = setAppState ERROR
                  (setError (Some (shownMessage t))
                     (setImagePreview (Some f) (setAppState GENERATING m)))).
  { intros t Ht. unfold handleImageUpload. now rewrite Hp, Ht. }
  repeat apply conj.
  - intros t Ht. rewrite (G t Ht). repeat split; reflexivity.
  - intro Hk.
    assert (Ht : generateCulinaryPlan env respond parse
                 = inr (ErrorObject (if aistudio env then cancelledMessage
                                     else notConfiguredMessage))).
    { unfold generateCulinaryPlan. rewrite ensureApiKey_key.
      destruct (keyRead env) as [k|]; [|reflexivity]. now rewrite Hk. }
    now rewrite (G _ Ht).
  - intros k jsonText Hk Hne Hr Hj.
    assert (Ht : generateCulinaryPlan env respond parse
                 = inr (ErrorObject invalidResponseMessage)).
    { unfold generateCulinaryPlan. rewrite ensureApiKey_key, Hk.
      destruct k; [contradiction|]. cbn. now rewrite Hr, Hj. }
    now rewrite (G _ Ht).
  - intros k t Hk Hne Hr.
    assert (Ht : generateCulinaryPlan env respond parse = inr t).
    { unfold generateCulinaryPlan. rewrite ensureApiKey_key, Hk.
      destruct k; [contradiction|]. cbn. now rewrite Hr. }
    now rewrite (G _ Ht).
Qed.

Lemma plan_failure_ends_on_error_screen_witness :
  renderContent (handleImageUpload UploadScenarios.noKeyServices
                   UploadScenarios.leekFile false initialApp)
  = ErrorScreen (Some notConfiguredMessage).
Proof.
  exact (proj1 (proj2
    (plan_failure_ends_on_error_screen UploadScenarios.noKeyServices
       UploadScenarios.leekFile false initialApp UploadScenarios.noKey
       UploadScenarios.respondLeek UploadScenarios.parseLeek eq_refl)) eq_refl).
Defined.

Lemma handleImageUpload_plan (sv : Services) (f : File) (testMode : bool)
    (m : AppModel) (plan : GeneratedPlan) :
  planFor sv f = inl plan ->
  exists videoUrls videos voiceovers,
    handleImageUpload sv f testMode m
    = setAppState DISPLAYING_RECIPES
        (setCulinaryPlan (Some (updatedPlan plan videoUrls videos voiceovers))
           (mkApp (if testMode then GENERATING else GENERATING_VIDEOS)
              (Some (receivedPlan plan)) (error m) (Some f) (user m)
              (isLoginModalOpen m) (favoriteCount m))).
Proof.
  intro Hp. unfold handleImageUpload. rewrite Hp.
  destruct testMode; [repeat eexists|].
  destruct (generateAllRecipeVideos sv (genRecipes plan)); repeat eexists.
Qed.

(** X19.  Once [generateCulinaryPlan] has returned a plan, the upload
    always ends on the recipes: whatever the video and voiceover services
    do (reject, run out of quota, return nothing), the application shows
    one card per generated recipe, in order and with its title, or the
    "no recipes" screen when the plan has none; the error text and the
    session are left as they were. *)
Theorem upload_with_a_plan_shows_recipes (sv : Services) (f : File) (testMode : bool)
    (m : AppModel) (plan : GeneratedPlan) :
  planFor sv f = inl plan ->
  appState (handleImageUpload sv f testMode m) = DISPLAYING_RECIPES
  /\ (exists p, culinaryPlan (handleImageUpload sv f testMode m) = Some p
        /\ recipes p = map title (genRecipes plan)
        /\ ingredients p = genIngredients plan
        /\ renderContent (handleImageUpload sv f testMode m)
           = match genRecipes plan with
             | [] => NoRecipesScreen
             | _ :: _ => RecipesScreen (recipeScroller p)
             end
        /\ map attrTitle (recipeScroller p) = map title (genRecipes plan))
  /\ error (handleImageUpload sv f testMode m) = error m
  /\ user (handleImageUpload sv f testMode m) = user m
  /\ favoriteCount (handleImageUpload sv f testMode m) = favoriteCount m.
Proof.
  intro Hp.
  destruct (handleImageUpload_plan sv f testMode m plan Hp)
    as (videoUrls & videos & voiceovers & E).
  rewrite E. split; [reflexivity|]. split; [|repeat split; reflexivity].
  eexists. split; [reflexivity|]. split; [reflexivity|]. split; [reflexivity|].
  split.
  - unfold renderContent. cbn. destruct (genRecipes plan); reflexivity.
  - unfold recipeScroller. cbn [recipes updatedPlan].
    generalize (updatedPlan plan videoUrls videos voiceovers) as p.
    intro p. generalize 0%nat as start.
    induction (map title (genRecipes plan)) as [|t rest IH]; intro start;
      [reflexivity|].
    cbn. f_equal. apply IH.
Qed.

Lemma upload_with_a_plan_shows_recipes_witness :
  appState (handleImageUpload UploadScenarios.noVideoServices
              UploadScenarios.leekFile false initialApp)
  = DISPLAYING_RECIPES.
Proof.
  exact (proj1
    (upload_with_a_plan_shows_recipes UploadScenarios.noVideoServices
       UploadScenarios.leekFile false initialApp UploadScenarios.leekPlan eq_refl)).
Defined.

Lemma placeholderStoryboard_for (sv : Services) (plan : GeneratedPlan) (i : nat) :
  voiceoverFor sv (placeholderStoryboard plan) i
  = match nth_error (genRecipes plan) i with
    | Some r => generateRecipeVoiceover sv i (placeholderScript r)
    | None => None
    end.
Proof.
  unfold voiceoverFor, placeholderStoryboard.
  destruct (nth_error (genRecipes plan) i) as [r|]; reflexivity.
Qed.

(** X20.  Which recipes get a voiceover.  In test mode every recipe is
    asked for one (its placeholder script is never empty) and has it
    exactly when its call resolves; a rejected call costs only that
    recipe its voiceover.  When video generation rejects, only recipe 0
    can get one, from the plan's own storyboard, and only if that script
    is not empty.  When video generation resolves, recipe [i] uses the
    script generated for it, recipe 0 falling back on the plan's
    storyboard.  No entry is ever made beyond the last recipe. *)
Theorem voiceovers_after_upload (sv : Services) (f : File) (m : AppModel)
    (plan : GeneratedPlan) (i : nat) :
  planFor sv f = inl plan ->
  planVoiceover (handleImageUpload sv f true m) i
    = match nth_error (genRecipes plan) i with
      | Some r => generateRecipeVoiceover sv i (placeholderScript r)
      | None => None
      end
  /\ (generateAllRecipeVideos sv (genRecipes plan) = None ->
      planVoiceover (handleImageUpload sv f false m) i
      = match i, genRecipes plan with
        | O, _ :: _ =>
            if truthy (Some (genStoryboard plan))
            then generateRecipeVoiceover sv 0 (genStoryboard plan)
            else None
        | _, _ => None
        end)
  /\ (forall v, generateAllRecipeVideos sv (genRecipes plan) = Some v ->
      planVoiceover (handleImageUpload sv f false m) i
      = if (i <? List.length (genRecipes plan))%nat
        then voiceoverFor sv (generatedStoryboard plan v) i
        else None)
  /\ (forall testMode, (List.length (genRecipes plan) <= i)%nat ->
      planVoiceover (handleImageUpload sv f testMode m) i = None).
Proof.
  intro Hp. repeat apply conj.
  - unfold handleImageUpload, planVoiceover. rewrite Hp. cbn.
    rewrite voiceoverLoop_from_zero, placeholderStoryboard_for.
    destruct (Nat.ltb_spec i (List.length (genRecipes plan))) as [Hlt|Hge];
      [reflexivity|].
    apply nth_error_None in Hge. now rewrite Hge.
  - intro Hv. unfold handleImageUpload, planVoiceover. rewrite Hp, Hv. cbn.
    rewrite voiceoverLoop_from_zero. unfold voiceoverFor, firstStoryboard.
    destruct i as [|i'], (genRecipes plan) as [|r rest]; cbn; try reflexivity.
    now destruct (List.length rest) as [|n]; [|destruct (i' <=? n)%nat].
  - intros v Hv. unfold handleImageUpload, planVoiceover. rewrite Hp, Hv. cbn.
    apply voiceoverLoop_from_zero.
  - intros testMode Hge. unfold handleImageUpload, planVoiceover. rewrite Hp.
    apply Nat.ltb_ge in Hge.
    destruct testMode; [|destruct (generateAllRecipeVideos sv (genRecipes plan))];
      cbn; rewrite voiceoverLoop_from_zero, Hge; reflexivity.
Qed.

Lemma voiceovers_after_upload_witness :
  planVoiceover (handleImageUpload UploadScenarios.leekServices
                   UploadScenarios.leekFile true initialApp) 1
  = None
  /\ planVoiceover (handleImageUpload UploadScenarios.leekServices
                      UploadScenarios.leekFile true initialApp) 0
     = Some "https://cdn.example/voice.mp3"%string.
Proof.
  split.
  - exact (proj1
      (voiceovers_after_upload UploadScenarios.leekServices UploadScenarios.leekFile
         initialApp UploadScenarios.leekPlan 1 eq_refl)).
  - exact (proj1
      (voiceovers_after_upload UploadScenarios.leekServices UploadScenarios.leekFile
         initialApp UploadScenarios.leekPlan 0 eq_refl)).
Defined.

(** X21.  Which videos the recipe cards are handed after an upload.  In
    test mode, and whenever video generation rejects, every card gets an
    empty [videoUrls] and so shows the gradient placeholder.  When video
    generation resolves, the card of recipe [i] gets exactly the list
    generated for recipe [i] (nothing when there is none): the legacy
    [videoUrls] fallback for the first recipe never adds a video. *)
Theorem videos_after_upload (sv : Services) (f : File) (m : AppModel)
    (plan : GeneratedPlan) (i : nat) :
  planFor sv f = inl plan ->
  planVideos (handleImageUpload sv f true m) i = []
  /\ (generateAllRecipeVideos sv (genRecipes plan) = None ->
      planVideos (handleImageUpload sv f false m) i = [])
  /\ (forall v, generateAllRecipeVideos sv (genRecipes plan) = Some v ->
      planVideos (handleImageUpload sv f false m) i
      = match lookupKey (Z.of_nat i) (generatedVideos v) with
        | Some urls => urls
        | None => []
        end)
  /\ (forall testMode a,
      (testMode = true \/ generateAllRecipeVideos sv (genRecipes plan) = None) ->
      match renderContent (handleImageUpload sv f testMode m) with
      | RecipesScreen cards => In a cards -> hasVideo (destructure a) = false
      | _ => True
      end).
Proof.
  intro Hp.
  assert (N : forall testMode,
            testMode = true \/ generateAllRecipeVideos sv (genRecipes plan) = None ->
            exists voiceovers,
              handleImageUpload sv f testMode m
              = setAppState DISPLAYING_RECIPES
                  (setCulinaryPlan (Some (updatedPlan plan [] [] voiceovers))
                     (mkApp (if testMode then GENERATING else GENERATING_VIDEOS)
                        (Some (receivedPlan plan)) (error m) (Some f) (user m)
                        (isLoginModalOpen m) (favoriteCount m)))).
  { intros testMode H. unfold handleImageUpload. rewrite Hp.
    destruct testMode; [eexists; reflexivity|].
    destruct H as [H|H]; [discriminate|]. rewrite H. eexists; reflexivity. }
  repeat apply conj.
  - destruct (N true (or_introl eq_refl)) as [vo E]. rewrite E.
    unfold planVideos, scrollerVideoUrls. cbn. now destruct (i =? 0)%nat.
  - intro Hv. destruct (N false (or_intror Hv)) as [vo E]. rewrite E.
    unfold planVideos, scrollerVideoUrls. cbn. now destruct (i =? 0)%nat.
  - intros v Hv. unfold handleImageUpload, planVideos. rewrite Hp, Hv.
    unfold scrollerVideoUrls. cbn.
    destruct (lookupKey (Z.of_nat i) (generatedVideos v)) as [[|u r]|] eqn:L;
      cbn; try reflexivity.
    + destruct i as [|i']; [|reflexivity]. cbn in L |- *. now rewrite L.
    + destruct i as [|i']; [|reflexivity]. cbn in L |- *. now rewrite L.
  - intros testMode a H. destruct (N testMode H) as [vo E]. rewrite E.
    unfold renderContent. cbn.
    destruct (map title (genRecipes plan)) as [|t rest] eqn:Et; [exact I|].
    unfold recipeScroller. cbn [recipes updatedPlan]. rewrite ?Et.
    intro Hin.
    apply NeverVisible.In_mapi in Hin as (k & t' & _ & ->).
    unfold scrollerCard, destructure, hasVideo, scrollerVideoUrls. cbn.
    now destruct (k =? 0)%nat.
Qed.

Lemma videos_after_upload_witness :
  planVideos (handleImageUpload UploadScenarios.noVideoServices
                UploadScenarios.leekFile false initialApp) 0
  = [].
Proof.
  exact (proj1 (proj2
    (videos_after_upload UploadScenarios.noVideoServices UploadScenarios.leekFile
       initialApp UploadScenarios.leekPlan 0 eq_refl)) eq_refl).
Defined.

Lemma handleImageUpload_outcome (sv : Services) (f : File) (testMode : bool)
    (m : AppModel) :
  (exists msg,
     handleImageUpload sv f testMode m
     = mkApp ERROR (culinaryPlan m) (Some msg) (Some f) (user m)
         (isLoginModalOpen m) (favoriteCount m))
  \/ (exists p,
        handleImageUpload sv f testMode m
        = mkApp DISPLAYING_RECIPES (Some p) (error m) (Some f) (user m)
            (isLoginModalOpen m) (favoriteCount m)).
Proof.
  unfold handleImageUpload.
  destruct (planFor sv f) as [plan|err]; [right | left; eexists; reflexivity].
  destruct testMode; [eexists; reflexivity|].
  destruct (generateAllRecipeVideos sv (genRecipes plan)); eexists; reflexivity.
Qed.

Lemma appStep_invariant (m : AppModel) (e : AppEvent) :
  screenInvariant m -> carriesUser e = true -> screenInvariant (appStep m e).
Proof.
  intros (I1 & I2 & I3 & I4 & I5 & I6) He.
  destruct e as [| |u count| |count| | | |sv f testMode]; cbn [appStep].
  - repeat split; assumption.
  - repeat split; assumption.
  - destruct u as [u|]; [|discriminate He].
    unfold handleLogin. repeat split; cbn; try assumption; discriminate.
  - unfold handleLogout.
    destruct (appState m) eqn:Ea; repeat split; cbn; rewrite ?Ea;
      try discriminate; try reflexivity; try (intros _; now apply I3);
      try (intros _; now apply I4); try now contradiction I5; try now contradiction I6.
  - unfold handleFavoriteChange.
    destruct (user m) eqn:Eu; repeat split; cbn; rewrite ?Eu;
      try assumption; try discriminate.
  - unfold handleShowFavorites.
    destruct (user m) eqn:Eu; repeat split; cbn; rewrite ?Eu;
      try assumption; try discriminate.
  - unfold handleBackToHome. repeat split; cbn; try assumption; discriminate.
  - unfold handleReset. repeat split; cbn; try assumption; discriminate.
  - destruct (handleImageUpload_outcome sv f testMode m) as [[msg E]|[p E]];
      rewrite E; repeat split; cbn; try assumption; discriminate.
Qed.

Lemma appRun_invariant (evs : list AppEvent) :
  forall m, screenInvariant m -> forallb carriesUser evs = true ->
  screenInvariant (fold_left appStep evs m).
Proof.
  induction evs as [|e rest IH]; intros m Hm Hall; [exact Hm|].
  cbn in Hall. apply andb_true_iff in Hall as [He Hrest].
  cbn [fold_left]. apply IH; [|exact Hrest].
  now apply appStep_invariant.
Qed.

(** X22.  What the screens can rely on, after the mount effect and any
    sequence of handler calls in which a login hands over a user: the
    favorites screen is only shown to a signed-in user, the favorite count
    is 0 while nobody is signed in, the recipes screen always has a plan
    (the "Loading recipes..." branch of [renderContent] is never taken),
    the error screen always has a message, and no handler that has run to
    completion leaves the application on a generating screen. *)
Theorem screens_can_rely_on_their_state (currentUser : option string) (count : nat)
    (evs : list AppEvent) :
  forallb carriesUser evs = true ->
  screenInvariant (appRun currentUser count evs)
  /\ renderContent (appRun currentUser count evs) <> LoadingRecipesScreen.
Proof.
  intro Hall.
  assert (Inv : screenInvariant (appRun currentUser count evs)).
  { apply appRun_invariant; [|exact Hall].
    unfold mountEffect, screenInvariant.
    destruct currentUser; cbn; repeat split; try discriminate; reflexivity. }
  split; [exact Inv|].
  destruct Inv as (_ & _ & I3 & _).
  unfold renderContent.
  destruct (appState (appRun currentUser count evs)); try discriminate.
  destruct (culinaryPlan (appRun currentUser count evs)) as [p|];
    [destruct (recipes p); discriminate | now contradiction I3].
Qed.

Lemma screens_can_rely_on_their_state_witness :
  screenInvariant (appRun None 0 UploadScenarios.leekSession).
Proof.
  exact (proj1
    (screens_can_rely_on_their_state None 0 UploadScenarios.leekSession eq_refl)).
Defined.

End AppFacts.
